(** * XcodeBuildMCP: the plist editing tool and the doctor probe adapters

    A shallow embedding of
      - [set_plist_value.ts]  (key-path parsing, value validation and quoting,
        the Print / Set / Add / Print command protocol), and
      - [doctor.deps.ts]      (the probe adapters built by
        [createDoctorDependencies]),
    together with the properties their specification states about them.

    Conventions of the embedding.
      - A JavaScript string is the list of its code points ([for ... of]
        iterates code points); every character the code inspects lies in the
        Basic Multilingual Plane.
      - [await] is sequential here, so an asynchronous function is a
        computation over the log of external calls made so far.  An injected
        executor is a function of that log, which covers every deterministic
        mock or real executor, stateful ones included.
      - A JavaScript exception is an explicit [Threw] outcome. *)

From Stdlib Require Import NArith List Bool Ascii String Lia.
From stdpp Require Import base decidable option list countable gmap fin_maps fin_sets.

Set Default Proof Using "Type".
Local Open Scope N_scope.

(** ** JavaScript strings *)

Module JS.

Abbreviation char := N (only parsing).
Abbreviation jsstring := (list N) (only parsing).

(** Literals: the code points of an ASCII Rocq string. *)
Definition lit (s : string) : jsstring :=
  map (fun a => N.of_nat (nat_of_ascii a)) (list_ascii_of_string s).

Definition TAB : char := 9.
Definition LF : char := 10.
Definition CR : char := 13.
Definition SPACE : char := 32.
Definition DQUOTE : char := 34.
Definition PLUS : char := 43.
Definition MINUS : char := 45.
Definition DOT : char := 46.
Definition COLON : char := 58.
Definition BACKSLASH : char := 92.

Fixpoint streqb (a b : jsstring) : bool :=
  match a, b with
  | [], [] => true
  | x :: a', y :: b' => (x =? y) && streqb a' b'
  | _, _ => false
  end.

Definition isEmpty (s : jsstring) : bool :=
  match s with [] => true | _ => false end.

(** [String.prototype.startsWith]. *)
Fixpoint startsWith (s prefix : jsstring) {struct prefix} : bool :=
  match prefix, s with
  | [], _ => true
  | p :: prefix', c :: s' => (c =? p) && startsWith s' prefix'
  | _ :: _, [] => false
  end.

(** [String.prototype.includes]. *)
Fixpoint includes (s needle : jsstring) : bool :=
  startsWith s needle ||
  match s with
  | [] => false
  | _ :: s' => includes s' needle
  end.

(** WhiteSpace and LineTerminator code points of ECMAScript, the set that
    [String.prototype.trim] strips. *)
Definition isWhiteSpace (c : char) : bool :=
  ((9 <=? c) && (c <=? 13)) || (c =? 32) || (c =? 160) || (c =? 5760)
  || ((8192 <=? c) && (c <=? 8202)) || (c =? 8232) || (c =? 8233)
  || (c =? 8239) || (c =? 8287) || (c =? 12288) || (c =? 65279).

Fixpoint trimStart (s : jsstring) : jsstring :=
  match s with
  | c :: s' => if isWhiteSpace c then trimStart s' else s
  | [] => []
  end.

Definition trimEnd (s : jsstring) : jsstring := rev (trimStart (rev s)).

Definition trim (s : jsstring) : jsstring := trimEnd (trimStart s).

(** [String.prototype.toLowerCase], one code point at a time.  The ASCII
    capitals, U+0130 (which lower-cases to [i] followed by U+0307) and the
    Kelvin sign U+212A (which lower-cases to [k]) are the only code points
    whose lower-case form contains an ASCII character; every other code
    point is left in place, which keeps the outcome of every comparison with
    an ASCII string made by the code. *)
Definition lowerChar (c : char) : jsstring :=
  if (65 <=? c) && (c <=? 90) then [c + 32]
  else if c =? 304 then [105; 775]
  else if c =? 8490 then [107]
  else [c].

Definition toLowerCase (s : jsstring) : jsstring := flat_map lowerChar s.

(** [Array.prototype.join]. *)
Fixpoint join (sep : jsstring) (parts : list jsstring) : jsstring :=
  match parts with
  | [] => []
  | [p] => p
  | p :: rest => p ++ sep ++ join sep rest
  end.

(** [String.prototype.split] with a one-character separator; the
    accumulator [cur] holds the piece being read. *)
Fixpoint splitFrom (sep : char) (cur s : jsstring) : list jsstring :=
  match s with
  | [] => [cur]
  | c :: s' => if c =? sep then cur :: splitFrom sep [] s'
               else splitFrom sep (cur ++ [c]) s'
  end.

Definition splitOn (sep : char) (s : jsstring) : list jsstring := splitFrom sep [] s.

(** [s] occurs in [t] as a contiguous run. *)
Definition occursIn (s t : jsstring) : Prop :=
  exists pre post, t = pre ++ s ++ post.

(** [String.prototype.replaceAll] with a one-character pattern. *)
Definition replaceAllChar (pat : char) (by_ : jsstring) (s : jsstring) : jsstring :=
  flat_map (fun c => if c =? pat then by_ else [c]) s.

End JS.

Import JS.

(** ** set_plist_value.ts: pure helpers *)

Inductive PlistValueType := VString | VBool | VInt | VReal.

(** The text of a value type inside a template string. *)
Definition valueTypeName (t : PlistValueType) : jsstring :=
  match t with
  | VString => lit "string"
  | VBool => lit "bool"
  | VInt => lit "int"
  | VReal => lit "real"
  end.

Inductive KeyPathParseResult :=
| ParseOk (segments : list jsstring)
| ParseError (error : jsstring).

Inductive SetFailureClassification := MissingKey | NonMissing | UnknownFailure.

Definition emptySegmentError : jsstring := lit "Key path contains an empty segment.".
Definition unfinishedEscapeError : jsstring :=
  lit "Key path ends with an unfinished escape sequence.".

(** The [for ... of] loop of [parseKeyPathSegments] over the characters still
    to read, with its three loop variables, followed by the code after the
    loop. *)
Fixpoint parseKeyPathLoop (chars : jsstring) (segments : list jsstring)
    (currentSegment : jsstring) (escaping : bool) : KeyPathParseResult :=
  match chars with
  | character :: rest =>
      if escaping then
        parseKeyPathLoop rest segments (currentSegment ++ [character]) false
      else if character =? BACKSLASH then
        parseKeyPathLoop rest segments currentSegment true
      else if character =? COLON then
        let normalizedSegment := trim currentSegment in
        if isEmpty normalizedSegment then ParseError emptySegmentError
        else parseKeyPathLoop rest (segments ++ [normalizedSegment]) [] false
      else
        parseKeyPathLoop rest segments (currentSegment ++ [character]) false
  | [] =>
      if escaping then ParseError unfinishedEscapeError
      else
        let normalizedSegment := trim currentSegment in
        if isEmpty normalizedSegment then ParseError emptySegmentError
        else ParseOk (segments ++ [normalizedSegment])
  end.

Definition parseKeyPathSegments (keyPath : jsstring) : KeyPathParseResult :=
  parseKeyPathLoop keyPath [] [] false.

Definition escapeKeySegmentForPlistBuddy (segment : jsstring) : jsstring :=
  replaceAllChar COLON [BACKSLASH; COLON]
    (replaceAllChar BACKSLASH [BACKSLASH; BACKSLASH] segment).

(** [KeyPathParseResult & { plistBuddyKeyPath?: string }]: the optional field
    is present exactly on the success branch. *)
Inductive NormalizedKeyPath :=
| KeyPathOk (segments : list jsstring) (plistBuddyKeyPath : jsstring)
| KeyPathError (error : jsstring).

Definition normalizeKeyPathForPlistBuddy (keyPath : jsstring) : NormalizedKeyPath :=
  match parseKeyPathSegments keyPath with
  | ParseError e => KeyPathError e
  | ParseOk segments =>
      KeyPathOk segments
        (COLON :: join [COLON] (map escapeKeySegmentForPlistBuddy segments))
  end.

(** The loop of [quotePlistBuddyString], with its accumulator. *)
Fixpoint quoteLoop (chars : jsstring) (escaped : jsstring) : jsstring :=
  match chars with
  | [] => escaped
  | character :: rest =>
      if character =? BACKSLASH then quoteLoop rest (escaped ++ [BACKSLASH; BACKSLASH])
      else if character =? DQUOTE then quoteLoop rest (escaped ++ [BACKSLASH; DQUOTE])
      else if character =? LF then quoteLoop rest (escaped ++ BACKSLASH :: lit "n")
      else if character =? CR then quoteLoop rest (escaped ++ BACKSLASH :: lit "r")
      else if character =? TAB then quoteLoop rest (escaped ++ BACKSLASH :: lit "t")
      else quoteLoop rest (escaped ++ [character])
  end.

Definition quotePlistBuddyString (value : jsstring) : jsstring :=
  [DQUOTE] ++ quoteLoop value [] ++ [DQUOTE].

(** *** Literal grammars of [validateValueForType] *)

Definition isDigit (c : char) : bool := (48 <=? c) && (c <=? 57).
Definition isSign (c : char) : bool := (c =? PLUS) || (c =? MINUS).
Definition isExponentMark (c : char) : bool := (c =? 101) || (c =? 69).

(** [\d+] anchored at both ends. *)
Definition isDigits1 (s : jsstring) : bool := negb (isEmpty s) && forallb isDigit s.

(** [[+-]?]: drop one leading sign when there is one. *)
Definition dropSign (s : jsstring) : jsstring :=
  match s with
  | c :: s' => if isSign c then s' else s
  | [] => []
  end.

(** [/^[+-]?\d+$/]. *)
Definition matchesIntegerPattern (s : jsstring) : bool := isDigits1 (dropSign s).

(** The longest prefix free of [stop] characters, and what follows it. *)
Fixpoint spanUntil (stop : char -> bool) (s : jsstring) : jsstring * jsstring :=
  match s with
  | [] => ([], [])
  | c :: s' =>
      if stop c then ([], s)
      else let '(a, b) := spanUntil stop s' in (c :: a, b)
  end.

(** [(?:\d+\.\d*|\d*\.\d+|\d+)] anchored at both ends. *)
Definition matchesMantissa (m : jsstring) : bool :=
  let '(intPart, afterInt) := spanUntil (fun c => c =? DOT) m in
  match afterInt with
  | [] => isDigits1 intPart
  | _ :: fracPart =>
      forallb isDigit intPart && forallb isDigit fracPart
      && (negb (isEmpty intPart) || negb (isEmpty fracPart))
  end.

(** [/^[+-]?(?:(?:\d+\.\d*|\d*\.\d+|\d+)(?:[eE][+-]?\d+)?)$/]. *)
Definition matchesRealPattern (s : jsstring) : bool :=
  let '(mantissa, afterMantissa) := spanUntil isExponentMark (dropSign s) in
  matchesMantissa mantissa &&
  match afterMantissa with
  | [] => true
  | _ :: exponent => isDigits1 (dropSign exponent)
  end.

Definition digitsValue (s : jsstring) : N :=
  fold_left (fun acc c => 10 * acc + (c - 48)) s 0.

(** Decimal literals of magnitude below [2^1024 - 2^970] round to a finite
    double; from there on [Number] gives [Infinity]. *)
Definition overflowThreshold : N := 2 ^ 1024 - 2 ^ 970.

(** [Number.isFinite(Number(s))] for a string [s] that matches the real
    pattern: the exact magnitude [digits * 10^(exponent - fraction length)]
    is compared with the overflow threshold. *)
Definition numberIsFinite (s : jsstring) : bool :=
  let '(mantissa, afterMantissa) := spanUntil isExponentMark (dropSign s) in
  let '(intPart, afterInt) := spanUntil (fun c => c =? DOT) mantissa in
  let fracPart := tl afterInt in
  let digits := digitsValue (intPart ++ fracPart) in
  let shift := N.of_nat (length fracPart) in
  let exponent := tl afterMantissa in
  let e := digitsValue (dropSign exponent) in
  if startsWith exponent [MINUS] then
    digits <? overflowThreshold * 10 ^ (e + shift)
  else if shift <=? e then
    digits * 10 ^ (e - shift) <? overflowThreshold
  else
    digits <? overflowThreshold * 10 ^ (shift - e).

Definition boolError : jsstring := lit "Boolean values must be true or false.".
Definition intError : jsstring :=
  lit "Integer values must use whole-number format (for example: -1, 0, 42).".
Definition realError : jsstring :=
  lit "Real values must use finite decimal or scientific format (for example: 1.0, -0.5, 1e3).".

(** [null] is [None]. *)
Definition validateValueForType (value : jsstring) (valueType : PlistValueType)
    : option jsstring :=
  match valueType with
  | VBool =>
      let normalized := toLowerCase (trim value) in
      if negb (streqb normalized (lit "true")) && negb (streqb normalized (lit "false"))
      then Some boolError else None
  | VInt =>
      let normalized := trim value in
      if negb (matchesIntegerPattern normalized) then Some intError else None
  | VReal =>
      let normalized := trim value in
      if negb (matchesRealPattern normalized) || negb (numberIsFinite normalized)
      then Some realError else None
  | VString => None
  end.

Definition classifySetFailure (errorOrOutput : jsstring) : SetFailureClassification :=
  let normalized := toLowerCase errorOrOutput in
  if includes normalized (lit "does not exist")
     || includes normalized (lit "unknown entry")
     || includes normalized (lit "missing key")
  then MissingKey
  else if includes normalized (lit "type mismatch")
     || includes normalized (lit "cannot parse")
     || includes normalized (lit "malformed")
     || includes normalized (lit "invalid")
  then NonMissing
  else UnknownFailure.

(** Optional arguments are [option]s; a trimmed string is truthy when it is
    not empty. *)
Definition getCommandErrorText (output error : option jsstring) : jsstring :=
  match trim <$> error with
  | Some ((_ :: _) as normalizedError) => normalizedError
  | _ =>
      match trim <$> output with
      | Some ((_ :: _) as normalizedOutput) => normalizedOutput
      | _ => lit "Unknown error"
      end
  end.

Definition normalizeDisplayedValue (value : jsstring) (valueType : PlistValueType)
    : jsstring :=
  match valueType with
  | VString => value
  | _ => trim value
  end.

Inductive NormalizedValueResult :=
| ValueOk (normalizedValue commandValue : jsstring)
| ValueError (error : jsstring).

(** The four value types are all there are; the closing [return] of the
    source, for a fifth one, is out of reach. *)
Definition normalizeValueForType (value : jsstring) (valueType : PlistValueType)
    : NormalizedValueResult :=
  match validateValueForType value valueType with
  | Some validationError => ValueError validationError
  | None =>
      match valueType with
      | VBool =>
          let normalized := toLowerCase (trim value) in
          ValueOk normalized normalized
      | VInt | VReal =>
          let normalized := trim value in
          ValueOk normalized normalized
      | VString => ValueOk value (quotePlistBuddyString value)
      end
  end.

(** ** External calls, exceptions and asynchronous computations *)

(** A thrown value: an [Error] with its message, or anything else, kept as
    the text [String(value)] gives. *)
Inductive Thrown :=
| ThrownError (message : jsstring)
| ThrownValue (rendered : jsstring).

Inductive Outcome (A : Type) :=
| Returned (a : A)
| Threw (e : Thrown).
Arguments Returned {A} a.
Arguments Threw {A} e.

(** What an executor resolves with; [error] is optional in the code. *)
Record CommandResponse := {
  success : bool;
  output : jsstring;
  error : option jsstring
}.

(** The calls that leave the module.  [CallIsXcodemakeAvailable] stands for
    [isXcodemakeAvailable] of utils/xcodemake, the variant that may download
    and install the binary. *)
Inductive Call :=
| CallExecutor (command : list jsstring) (logPrefix : jsstring)
| CallResolveAxeBinary
| CallIsXcodemakeBinaryAvailable
| CallIsXcodemakeAvailable
| CallLoadManifest.

Abbreviation CallLog := (list Call) (only parsing).

(** An injected executor answers from the calls made before and the command
    it is given, by resolving or by rejecting. *)
Definition CommandExecutor : Type :=
  CallLog -> list jsstring -> jsstring -> Outcome CommandResponse.

Record FileSystemExecutor := {
  existsSync : jsstring -> Outcome bool
}.

Definition Async (A : Type) : Type := CallLog -> Outcome A * CallLog.

Definition ret {A} (a : A) : Async A := fun log => (Returned a, log).

Definition throw {A} (e : Thrown) : Async A := fun log => (Threw e, log).

Definition bind {A B} (c : Async A) (k : A -> Async B) : Async B :=
  fun log =>
    match c log with
    | (Returned a, log') => k a log'
    | (Threw e, log') => (Threw e, log')
    end.

(** [try { c } catch (e) { handler e }]. *)
Definition tryCatch {A} (c : Async A) (handler : Thrown -> Async A) : Async A :=
  fun log =>
    match c log with
    | (Returned a, log') => (Returned a, log')
    | (Threw e, log') => handler e log'
    end.

(** A synchronous call that is not logged. *)
Definition liftOutcome {A} (o : Outcome A) : Async A := fun log => (o, log).

Definition callExecutor (executor : CommandExecutor) (command : list jsstring)
    (logPrefix : jsstring) : Async CommandResponse :=
  fun log => (executor log command logPrefix, log ++ [CallExecutor command logPrefix]).

Declare Scope async_scope.
Delimit Scope async_scope with async.
Notation "x <- c ;; k" := (bind c (fun x => k))
  (at level 100, c at next level, right associativity) : async_scope.
Local Open Scope async_scope.

(** Run a computation from an empty log. *)
Definition run {A} (c : Async A) : Outcome A * CallLog := c [].

(** The executor commands of a log, in order. *)
Definition executorCommands (log : CallLog) : list (list jsstring) :=
  flat_map (fun c => match c with CallExecutor cmd _ => [cmd] | _ => [] end) log.

(** ** Tool responses *)

Record ContentItem := { type_ : jsstring; text : jsstring }.

Record ToolResponse := {
  content : list ContentItem;
  isError : bool
}.

(** [String(result.content?.[0]?.text ?? '')], as the tests read a response. *)
Definition responseText (r : ToolResponse) : jsstring :=
  match content r with
  | item :: _ => text item
  | [] => []
  end.

(** [createErrorResponse] belongs to utils/responses, outside the two modules
    embedded here.  It is taken as an interface: an error response is flagged
    as an error and its text shows both the message and the details, which is
    what the tool's tests read from it. *)
Class Responses := {
  createErrorResponse : jsstring -> jsstring -> ToolResponse;
  createErrorResponse_isError :
    forall message details, isError (createErrorResponse message details) = true;
  createErrorResponse_message :
    forall message details,
      occursIn message (responseText (createErrorResponse message details));
  createErrorResponse_details :
    forall message details,
      occursIn details (responseText (createErrorResponse message details))
}.

(** ** set_plist_value.ts: the tool logic *)

Record SetPlistValueParams := {
  plistPath : jsstring;
  keyPath : jsstring;
  value : jsstring;
  valueType : PlistValueType;
  createIfMissing : bool
}.

Definition plistBuddy : jsstring := lit "/usr/libexec/PlistBuddy".

Definition runPlistBuddyCommand (plistCommand plistPath : jsstring)
    (executor : CommandExecutor) (logPrefix : jsstring) : Async CommandResponse :=
  result <- callExecutor executor [plistBuddy; lit "-c"; plistCommand; plistPath] logPrefix ;;
  ret {| success := success result; output := output result; error := error result |}.

Definition printCommand (plistBuddyKeyPath : jsstring) : jsstring :=
  lit "Print " ++ plistBuddyKeyPath.

Definition setCommand (plistBuddyKeyPath commandValue : jsstring) : jsstring :=
  lit "Set " ++ plistBuddyKeyPath ++ lit " " ++ commandValue.

Definition addCommand (plistBuddyKeyPath : jsstring) (valueType : PlistValueType)
    (commandValue : jsstring) : jsstring :=
  lit "Add " ++ plistBuddyKeyPath ++ lit " " ++ valueTypeName valueType
    ++ lit " " ++ commandValue.

Definition successText (params : SetPlistValueParams) (finalValue : jsstring)
    (previousValue : option jsstring) : jsstring :=
  let previousValueText :=
    match previousValue with
    | Some previous => lit " Previous value: " ++ previous ++ lit "."
    | None => []
    end in
  lit "Set plist key '" ++ keyPath params ++ lit "' in '" ++ plistPath params
    ++ lit "' to '" ++ finalValue ++ lit "'." ++ previousValueText.

Section SetPlistValue.

Context `{Responses}.

(** The block guarded by [if (!setResult.success)]: [Some response] when it
    returns from the function, [None] when control falls through to the
    verification read. *)
Definition handleSetFailure (params : SetPlistValueParams)
    (plistBuddyKeyPath commandValue : jsstring) (executor : CommandExecutor)
    (setResult : CommandResponse) : Async (option ToolResponse) :=
  let setErrorText := getCommandErrorText (Some (output setResult)) (error setResult) in
  let setFailureType := classifySetFailure setErrorText in
  if negb (createIfMissing params) then
    ret (Some (createErrorResponse (lit "Failed to set plist value")
                 (lit "set_error: " ++ setErrorText)))
  else
    match setFailureType with
    | NonMissing =>
        ret (Some (createErrorResponse (lit "Failed to set plist value")
                     (lit "set_error: " ++ setErrorText)))
    | _ =>
        addResult <- runPlistBuddyCommand
                       (addCommand plistBuddyKeyPath (valueType params) commandValue)
                       (plistPath params) executor (lit "Add plist value") ;;
        if negb (success addResult) then
          let addErrorText :=
            getCommandErrorText (Some (output addResult)) (error addResult) in
          ret (Some (createErrorResponse (lit "Failed to set plist value")
                       (join [LF] [lit "set_error: " ++ setErrorText;
                                   lit "add_error: " ++ addErrorText])))
        else ret None
    end.

(** The best-effort read of the value in place: [previousValue] stays [null]
    when the read fails or the executor rejects. *)
Definition readPreviousValue (params : SetPlistValueParams)
    (plistBuddyKeyPath : jsstring) (executor : CommandExecutor)
    : Async (option jsstring) :=
  tryCatch
    (previousResult <- runPlistBuddyCommand (printCommand plistBuddyKeyPath)
                         (plistPath params) executor (lit "Read existing plist value") ;;
     ret (if success previousResult
          then Some (normalizeDisplayedValue (output previousResult) (valueType params))
          else None))
    (fun _ => ret None).

(** The verification read and the final report. *)
Definition verifyAndReport (params : SetPlistValueParams)
    (plistBuddyKeyPath : jsstring) (executor : CommandExecutor)
    (previousValue : option jsstring) : Async ToolResponse :=
  verifyResult <- runPlistBuddyCommand (printCommand plistBuddyKeyPath)
                    (plistPath params) executor (lit "Verify plist value") ;;
  if negb (success verifyResult) then
    let verifyErrorText :=
      getCommandErrorText (Some (output verifyResult)) (error verifyResult) in
    ret (createErrorResponse (lit "Failed to verify plist write")
           (lit "verify_error: " ++ verifyErrorText))
  else
    let finalValue := normalizeDisplayedValue (output verifyResult) (valueType params) in
    ret {| content := [{| type_ := lit "text";
                          text := successText params finalValue previousValue |}];
           isError := false |}.

(** The part of [set_plist_valueLogic] that talks to PlistBuddy, entered once
    the three checks on the parameters have passed. *)
Definition writeAndVerify (params : SetPlistValueParams)
    (plistBuddyKeyPath commandValue : jsstring) (executor : CommandExecutor)
    : Async ToolResponse :=
  previousValue <- readPreviousValue params plistBuddyKeyPath executor ;;
  setResult <- runPlistBuddyCommand (setCommand plistBuddyKeyPath commandValue)
                 (plistPath params) executor (lit "Set plist value") ;;
  early <- (if negb (success setResult)
            then handleSetFailure params plistBuddyKeyPath commandValue executor setResult
            else ret None) ;;
  match early with
  | Some response => ret response
  | None => verifyAndReport params plistBuddyKeyPath executor previousValue
  end.

Definition set_plist_valueLogic (params : SetPlistValueParams)
    (executor : CommandExecutor) (fileSystemExecutor : FileSystemExecutor)
    : Async ToolResponse :=
  fileExists <- liftOutcome (existsSync fileSystemExecutor (plistPath params)) ;;
  if negb fileExists then
    ret (createErrorResponse (lit "Plist file not found")
           (lit "No file exists at '" ++ plistPath params ++ lit "'."))
  else
    match normalizeKeyPathForPlistBuddy (keyPath params) with
    | KeyPathError parseError =>
        ret (createErrorResponse (lit "Parameter validation failed")
               (lit "Invalid parameters:" ++ [LF] ++ lit "keyPath: " ++ parseError))
    | KeyPathOk _ plistBuddyKeyPath =>
        if isEmpty plistBuddyKeyPath then
          ret (createErrorResponse (lit "Parameter validation failed")
                 (lit "Invalid parameters:" ++ [LF] ++ lit "keyPath: "
                    ++ lit "Invalid key path."))
        else
          match normalizeValueForType (value params) (valueType params) with
          | ValueError validationError =>
              ret (createErrorResponse (lit "Parameter validation failed") validationError)
          | ValueOk _ commandValue =>
              writeAndVerify params plistBuddyKeyPath commandValue executor
          end
    end.

End SetPlistValue.

(** ** doctor.deps.ts: the probe adapters *)

Record BinaryAvailability := {
  available : bool;
  version : option jsstring
}.

Record AxeBinary := { path : jsstring }.

(** [loadManifest().workflows]: the entries of the [Map], each a workflow id
    with the tool ids of the workflow. *)
Record Manifest := {
  workflows : list (jsstring * list jsstring)
}.

(** What doctor.deps.ts imports from other modules and from the process.
    [resolveAxeBinary] and [isXcodemakeBinaryAvailable] are synchronous
    look-ups typed as returning a value; [loadManifest] reads and parses
    files and may throw. *)
Record DoctorImports := {
  resolveAxeBinary : CallLog -> option AxeBinary;
  isXcodemakeBinaryAvailable : CallLog -> bool;
  loadManifest : CallLog -> Outcome Manifest;
  process_env : gmap jsstring jsstring
}.

Inductive XcodeInfo :=
| XcodeInfoOk (version path selectedXcode xcrunVersion : jsstring)
| XcodeInfoError (error : jsstring).

Record ManifestToolSummary := {
  totalTools : nat;
  workflowCount : nat;
  toolsByWorkflow : gmap jsstring nat
}.

Inductive ManifestToolInfo :=
| ManifestInfoOk (summary : ManifestToolSummary)
| ManifestInfoError (error : jsstring).

Definition versionUnknown : jsstring := lit "Available (version info not available)".

Section DoctorDependencies.

Variable imports : DoctorImports.
Variable executor : CommandExecutor.

Definition callResolveAxeBinary : Async (option AxeBinary) :=
  fun log => (Returned (resolveAxeBinary imports log), log ++ [CallResolveAxeBinary]).

Definition callIsXcodemakeBinaryAvailable : Async bool :=
  fun log => (Returned (isXcodemakeBinaryAvailable imports log),
              log ++ [CallIsXcodemakeBinaryAvailable]).

Definition callLoadManifest : Async Manifest :=
  fun log => (loadManifest imports log, log ++ [CallLoadManifest]).

(** The shared pattern
    [try { res = await executor(cmd); if (res.success && res.output) version = res.output.trim() } catch {}]. *)
Definition probeVersion (command : list jsstring) (logPrefix : jsstring)
    : Async (option jsstring) :=
  tryCatch
    (res <- callExecutor executor command logPrefix ;;
     ret (if success res && negb (isEmpty (output res))
          then Some (trim (output res)) else None))
    (fun _ => ret None).

(** [version ?? 'Available (version info not available)']. *)
Definition versionOrUnknown (version : option jsstring) : jsstring :=
  match version with
  | Some v => v
  | None => versionUnknown
  end.

(** [versionCommands] has the single key [mise].  A name inherited from
    [Object.prototype] also passes the [in] test, but then [.split] throws
    inside the [try] before any command is issued, which leaves [version]
    undefined as on the other branch. *)
Definition checkBinaryAvailability (binary : jsstring) : Async BinaryAvailability :=
  if streqb binary (lit "axe") then
    axeBinary <- callResolveAxeBinary ;;
    match axeBinary with
    | None => ret {| available := false; version := None |}
    | Some axe =>
        version <- probeVersion [path axe; lit "--version"] (lit "Get AXe Version") ;;
        ret {| available := true; version := Some (versionOrUnknown version) |}
    end
  else if streqb binary (lit "xcodemake") then
    isAvailable <- callIsXcodemakeBinaryAvailable ;;
    ret {| available := isAvailable;
           version := if isAvailable then Some versionUnknown else None |}
  else
    found <- tryCatch
               (which <- callExecutor executor [lit "which"; binary]
                           (lit "Check Binary Availability") ;;
                ret (success which))
               (fun _ => ret false) ;;
    if negb found then ret {| available := false; version := None |}
    else
      version <- (if streqb binary (lit "mise")
                  then probeVersion (splitOn SPACE (lit "mise --version"))
                         (lit "Get Binary Version")
                  else ret None) ;;
      ret {| available := true; version := Some (versionOrUnknown version) |}.

(** One step of [getXcodeInfo]: run the command and throw the given [Error]
    when it reports failure. *)
Definition runOrThrow (command : list jsstring) (logPrefix failure : jsstring)
    : Async CommandResponse :=
  res <- callExecutor executor command logPrefix ;;
  if negb (success res) then throw (ThrownError failure) else ret res.

(** [error instanceof Error ? error.message : String(error)]. *)
Definition thrownText (e : Thrown) : jsstring :=
  match e with
  | ThrownError message => message
  | ThrownValue rendered => rendered
  end.

Definition getXcodeInfo : Async XcodeInfo :=
  tryCatch
    (xcodebuild <- runOrThrow [lit "xcodebuild"; lit "-version"] (lit "Get Xcode Version")
                     (lit "xcodebuild command failed") ;;
     let version := join (lit " - ") (firstn 2 (splitOn LF (trim (output xcodebuild)))) in
     pathRes <- runOrThrow [lit "xcode-select"; lit "-p"] (lit "Get Xcode Path")
                  (lit "xcode-select command failed") ;;
     let path := trim (output pathRes) in
     selected <- runOrThrow [lit "xcrun"; lit "--find"; lit "xcodebuild"]
                   (lit "Find Xcodebuild") (lit "xcrun --find command failed") ;;
     let selectedXcode := trim (output selected) in
     xcrun <- runOrThrow [lit "xcrun"; lit "--version"] (lit "Get Xcrun Version")
                (lit "xcrun --version command failed") ;;
     let xcrunVersion := trim (output xcrun) in
     ret (XcodeInfoOk version path selectedXcode xcrunVersion))
    (fun e => ret (XcodeInfoError (thrownText e))).

(** [toolsByWorkflow[workflowId] = count] on the plain object [{}]: the map
    holds the own keys of the object.  Every key names an own property after
    the assignment but [__proto__], which is an accessor inherited from
    [Object.prototype]; its setter takes the assignment, ignores a number and
    stores nothing. *)
Definition assignCount (toolsByWorkflow : gmap jsstring nat) (workflowId : jsstring)
    (count : nat) : gmap jsstring nat :=
  if streqb workflowId (lit "__proto__") then toolsByWorkflow
  else <[workflowId := count]> toolsByWorkflow.

(** The loop over [loadedManifest.workflows.entries()]. *)
Definition summarizeWorkflows (entries : list (jsstring * list jsstring))
    : gmap jsstring nat * gset jsstring :=
  fold_left
    (fun '(toolsByWorkflow, uniqueTools) '(workflowId, tools) =>
       (assignCount toolsByWorkflow workflowId (length tools),
        fold_left (fun acc toolId => {[toolId]} ∪ acc) tools uniqueTools))
    entries (∅, ∅).

Definition getManifestToolInfo : Async ManifestToolInfo :=
  tryCatch
    (loadedManifest <- callLoadManifest ;;
     let '(toolsByWorkflow, uniqueTools) := summarizeWorkflows (workflows loadedManifest) in
     ret (ManifestInfoOk {| totalTools := size uniqueTools;
                            workflowCount := length (workflows loadedManifest);
                            toolsByWorkflow := toolsByWorkflow |}))
    (fun e =>
       ret (ManifestInfoError
              (lit "Failed to load manifest: "
                 ++ match e with
                    | ThrownError message => message
                    | ThrownValue _ => lit "Unknown error"
                    end))).

Definition relevantVars : list jsstring :=
  [ lit "INCREMENTAL_BUILDS_ENABLED"; lit "PATH"; lit "DEVELOPER_DIR"; lit "HOME";
    lit "USER"; lit "TMPDIR"; lit "NODE_ENV"; lit "SENTRY_DISABLED"; lit "AXE_PATH";
    lit "XBMCP_LAUNCH_JSON_WAIT_MS"; lit "XCODEBUILDMCP_DEBUGGER_BACKEND";
    lit "XCODEBUILDMCP_UI_DEBUGGER_GUARD_MODE" ].

(** [Record<string, string | undefined>]: a key of the record is a key of the
    map, and the value [undefined] is [None]. *)
Definition getEnvironmentVariables : gmap jsstring (option jsstring) :=
  let env := process_env imports in
  let envVars :=
    fold_left (fun envVars varName => <[varName := env !! varName]> envVars)
      relevantVars ∅ in
  map_fold
    (fun key value envVars =>
       if startsWith key (lit "XCODEBUILDMCP_")
       then <[key := env !! key]> envVars
       else envVars)
    envVars env.

End DoctorDependencies.

(** ** Reference notions used by the statements *)

(** The key path cut at its unescaped colons, escapes resolved, nothing
    trimmed and nothing rejected: the colon-delimited, backslash-escaped
    segments as they were typed. *)
Fixpoint rawSegmentsFrom (chars : jsstring) (currentSegment : jsstring)
    (escaping : bool) : list jsstring :=
  match chars with
  | [] => [currentSegment]
  | character :: rest =>
      if escaping then rawSegmentsFrom rest (currentSegment ++ [character]) false
      else if character =? BACKSLASH then rawSegmentsFrom rest currentSegment true
      else if character =? COLON then currentSegment :: rawSegmentsFrom rest [] false
      else rawSegmentsFrom rest (currentSegment ++ [character]) false
  end.

Definition rawSegments (keyPath : jsstring) : list jsstring :=
  rawSegmentsFrom keyPath [] false.

(** Whether a backslash is still waiting for its character once [chars] has
    been read, starting in state [escaping]. *)
Definition endsEscaping (chars : jsstring) (escaping : bool) : bool :=
  fold_left (fun (esc : bool) (c : char) => if esc then false else c =? BACKSLASH)
    chars escaping.

Fixpoint leadingBackslashes (s : jsstring) : nat :=
  match s with
  | c :: s' => if c =? BACKSLASH then S (leadingBackslashes s') else O
  | [] => O
  end.

(** The length of the run of backslashes that ends the string.  The last of
    them is unescaped exactly when the run has odd length. *)
Definition trailingBackslashes (s : jsstring) : nat := leadingBackslashes (rev s).

Definition emptyAfterTrim (s : jsstring) : bool := isEmpty (trim s).

(** No white space at either end. *)
Definition trimmed (s : jsstring) : Prop :=
  (forall c t, s = c :: t -> isWhiteSpace c = false)
  /\ (forall t c, s = t ++ [c] -> isWhiteSpace c = false).

(** The literal grammars, as the regular expressions read.  A digit string
    may be empty; each alternative says where it may not. *)
Definition signPrefix (sign : jsstring) : Prop :=
  sign = [] \/ sign = [PLUS] \/ sign = [MINUS].

Definition digitString (digits : jsstring) : Prop := forallb isDigit digits = true.

(** [[+-]?\d+] *)
Definition integerLiteral (s : jsstring) : Prop :=
  exists sign digits,
    s = sign ++ digits /\ signPrefix sign /\ digits <> [] /\ digitString digits.

(** [\d+\.\d*|\d*\.\d+|\d+] *)
Definition mantissaLiteral (m : jsstring) : Prop :=
  (exists intPart fracPart,
      m = intPart ++ [DOT] ++ fracPart
      /\ digitString intPart /\ digitString fracPart
      /\ (intPart <> [] \/ fracPart <> []))
  \/ (m <> [] /\ digitString m).

(** [(?:[eE][+-]?\d+)?] *)
Definition exponentLiteral (e : jsstring) : Prop :=
  e = [] \/ (exists mark rest,
                e = mark :: rest /\ isExponentMark mark = true /\ integerLiteral rest).

(** [[+-]?(?:(?:\d+\.\d*|\d*\.\d+|\d+)(?:[eE][+-]?\d+)?)] *)
Definition realLiteral (s : jsstring) : Prop :=
  exists sign mantissa exponent,
    s = sign ++ mantissa ++ exponent
    /\ signPrefix sign /\ mantissaLiteral mantissa /\ exponentLiteral exponent.

(** A value fits the literal grammar of its type: [true|false] for a bool, an
    integer literal for an int, a real literal of finite value for a real,
    each after trimming (and lower-casing, for a bool); any string fits the
    string type. *)
Definition fitsGrammar (value : jsstring) (valueType : PlistValueType) : Prop :=
  match valueType with
  | VString => True
  | VBool =>
      toLowerCase (trim value) = lit "true" \/ toLowerCase (trim value) = lit "false"
  | VInt => integerLiteral (trim value)
  | VReal => realLiteral (trim value) /\ numberIsFinite (trim value) = true
  end.

(** The escape of one character inside a quoted PlistBuddy string. *)
Definition escapedChar (c : char) : jsstring :=
  if c =? BACKSLASH then [BACKSLASH; BACKSLASH]
  else if c =? DQUOTE then [BACKSLASH; DQUOTE]
  else if c =? LF then BACKSLASH :: lit "n"
  else if c =? CR then BACKSLASH :: lit "r"
  else if c =? TAB then BACKSLASH :: lit "t"
  else [c].

Definition quoted (value : jsstring) : jsstring :=
  [DQUOTE] ++ flat_map escapedChar value ++ [DQUOTE].

(** An Add command of the plist tool, whatever its operands. *)
Definition isAddCall (c : Call) : bool :=
  match c with
  | CallExecutor [_; _; plistCommand; _] _ => startsWith plistCommand (lit "Add ")
  | _ => false
  end.

(** The four calls the plist tool can make. *)
Definition plistCall (plistCommand plistPath logPrefix : jsstring) : Call :=
  CallExecutor [plistBuddy; lit "-c"; plistCommand; plistPath] logPrefix.

Definition readCall (params : SetPlistValueParams) (plistBuddyKeyPath : jsstring) : Call :=
  plistCall (printCommand plistBuddyKeyPath) (plistPath params)
    (lit "Read existing plist value").

Definition setCall (params : SetPlistValueParams)
    (plistBuddyKeyPath commandValue : jsstring) : Call :=
  plistCall (setCommand plistBuddyKeyPath commandValue) (plistPath params)
    (lit "Set plist value").

Definition addCall (params : SetPlistValueParams)
    (plistBuddyKeyPath commandValue : jsstring) : Call :=
  plistCall (addCommand plistBuddyKeyPath (valueType params) commandValue)
    (plistPath params) (lit "Add plist value").

Definition verifyCall (params : SetPlistValueParams) (plistBuddyKeyPath : jsstring) : Call :=
  plistCall (printCommand plistBuddyKeyPath) (plistPath params)
    (lit "Verify plist value").

(** What the executor answers to a call, given the calls before it. *)
Definition answerTo (executor : CommandExecutor) (log : CallLog) (c : Call)
    : Outcome CommandResponse :=
  match c with
  | CallExecutor command logPrefix => executor log command logPrefix
  | _ => Threw (ThrownValue (lit "not an executor call"))
  end.

Definition isNonMissing (c : SetFailureClassification) : bool :=
  match c with
  | NonMissing => true
  | _ => false
  end.

(** The condition under which a failed Set is followed by an Add. *)
Definition fallbackAllowed (params : SetPlistValueParams) (setErrorText : jsstring)
    : bool :=
  createIfMissing params && negb (isNonMissing (classifySetFailure setErrorText)).

(** What the best-effort read leaves in [previousValue]. *)
Definition previousValueOf (valueType : PlistValueType) (o : Outcome CommandResponse)
    : option jsstring :=
  match o with
  | Returned r =>
      if success r then Some (normalizeDisplayedValue (output r) valueType) else None
  | Threw _ => None
  end.

(** The three checks made before any command: the file exists, the key path
    parses to [plistBuddyKeyPath], the value is valid and is sent as
    [commandValue]. *)
Definition preflightPasses (params : SetPlistValueParams)
    (fileSystemExecutor : FileSystemExecutor)
    (plistBuddyKeyPath commandValue : jsstring) : Prop :=
  existsSync fileSystemExecutor (plistPath params) = Returned true
  /\ (exists segments,
        normalizeKeyPathForPlistBuddy (keyPath params)
        = KeyPathOk segments plistBuddyKeyPath)
  /\ (exists normalizedValue,
        normalizeValueForType (value params) (valueType params)
        = ValueOk normalizedValue commandValue).

(** The character a backslash escape of a quoted PlistBuddy string stands
    for. *)
Definition unescapedChar (c : char) : char :=
  if c =? 110 then LF
  else if c =? 114 then CR
  else if c =? 116 then TAB
  else c.

(** Reading a quoted string back: a backslash announces the character that
    follows. *)
Fixpoint unescapeFrom (chars : jsstring) (escaping : bool) : jsstring :=
  match chars with
  | [] => []
  | c :: rest =>
      if escaping then unescapedChar c :: unescapeFrom rest false
      else if c =? BACKSLASH then unescapeFrom rest true
      else c :: unescapeFrom rest false
  end.

(** The characters of a bool, int or real literal: digits, signs, the dot,
    lower-case ASCII letters and [E]. *)
Definition isTokenChar (c : char) : bool :=
  isDigit c || isSign c || (c =? DOT) || ((97 <=? c) && (c <=? 122)) || (c =? 69).

(** One of the phrases occurs in the text. *)
Definition anyOccurs (phrases : list jsstring) (text : jsstring) : Prop :=
  exists phrase, In phrase phrases /\ occursIn phrase text.

Definition missingKeyPhrases : list jsstring :=
  [lit "does not exist"; lit "unknown entry"; lit "missing key"].

Definition nonMissingPhrases : list jsstring :=
  [lit "type mismatch"; lit "cannot parse"; lit "malformed"; lit "invalid"].

(** *** The commands of the doctor probes *)

Definition whichCall (binary : jsstring) : Call :=
  CallExecutor [lit "which"; binary] (lit "Check Binary Availability").

Definition miseVersionCall : Call :=
  CallExecutor [lit "mise"; lit "--version"] (lit "Get Binary Version").

Definition axeVersionCall (axe : AxeBinary) : Call :=
  CallExecutor [path axe; lit "--version"] (lit "Get AXe Version").

(** A call that resolved and reported success. *)
Definition succeeded (o : Outcome CommandResponse) : bool :=
  match o with
  | Returned res => success res
  | Threw _ => false
  end.

(** The version a probe reports from the answer to its version command. *)
Definition versionFrom (o : Outcome CommandResponse) : jsstring :=
  match o with
  | Returned res =>
      if success res && negb (isEmpty (output res)) then trim (output res)
      else versionUnknown
  | Threw _ => versionUnknown
  end.

(** The four commands of [getXcodeInfo], in the order of the source, and the
    messages of the errors it throws when one of them reports failure. *)
Definition xcodeProbeCalls : list Call :=
  [ CallExecutor [lit "xcodebuild"; lit "-version"] (lit "Get Xcode Version");
    CallExecutor [lit "xcode-select"; lit "-p"] (lit "Get Xcode Path");
    CallExecutor [lit "xcrun"; lit "--find"; lit "xcodebuild"] (lit "Find Xcodebuild");
    CallExecutor [lit "xcrun"; lit "--version"] (lit "Get Xcrun Version") ].

Definition xcodeFailureMessages : list jsstring :=
  [ lit "xcodebuild command failed"; lit "xcode-select command failed";
    lit "xcrun --find command failed"; lit "xcrun --version command failed" ].

(** The answer to the [k]-th command of [getXcodeInfo] (counted from 0), given
    after the commands before it. *)
Definition xcodeAnswer (executor : CommandExecutor) (log : CallLog) (k : nat)
    : Outcome CommandResponse :=
  answerTo executor (log ++ firstn k xcodeProbeCalls)
    (nth k xcodeProbeCalls CallLoadManifest).

(** The error text [getXcodeInfo] gives for the step that ended it. *)
Definition xcodeErrorOf (step : nat) (o : Outcome CommandResponse) : jsstring :=
  match o with
  | Returned _ => nth step xcodeFailureMessages []
  | Threw e => thrownText e
  end.

(** *** The ways a run of the plist tool can end *)

Section ProtocolEnds.

Context `{Responses}.

Variable params : SetPlistValueParams.
Variable executor : CommandExecutor.
Variable plistBuddyKeyPath commandValue : jsstring.

Local Abbreviation theRead := (readCall params plistBuddyKeyPath).
Local Abbreviation theSet := (setCall params plistBuddyKeyPath commandValue).
Local Abbreviation theAdd := (addCall params plistBuddyKeyPath commandValue).
Local Abbreviation theVerify := (verifyCall params plistBuddyKeyPath).
Local Abbreviation previous :=
  (previousValueOf (valueType params) (answerTo executor [] theRead)).

(** How a run of the verification read ends. *)
Inductive VerifyEnd (before : list Call) : Outcome ToolResponse -> list Call -> Prop :=
| VerifyRejected e :
    answerTo executor before theVerify = Threw e ->
    VerifyEnd before (Threw e) (before ++ [theVerify])
| VerifyFailed verifyResult :
    answerTo executor before theVerify = Returned verifyResult ->
    success verifyResult = false ->
    VerifyEnd before
      (Returned (createErrorResponse (lit "Failed to verify plist write")
                   (lit "verify_error: "
                      ++ getCommandErrorText (Some (output verifyResult))
                           (error verifyResult))))
      (before ++ [theVerify])
| VerifyConfirmed verifyResult :
    answerTo executor before theVerify = Returned verifyResult ->
    success verifyResult = true ->
    VerifyEnd before
      (Returned {| content :=
                     [{| type_ := lit "text";
                         text := successText params
                                   (normalizeDisplayedValue (output verifyResult)
                                      (valueType params))
                                   previous |}];
                   isError := false |})
      (before ++ [theVerify]).

(** How a run of the command protocol ends. *)
Inductive ProtocolEnd : Outcome ToolResponse -> list Call -> Prop :=
| SetRejected e :
    answerTo executor [theRead] theSet = Threw e ->
    ProtocolEnd (Threw e) [theRead; theSet]
| SetDone setResult result log :
    answerTo executor [theRead] theSet = Returned setResult ->
    success setResult = true ->
    VerifyEnd [theRead; theSet] result log ->
    ProtocolEnd result log
| SetRefused setResult :
    answerTo executor [theRead] theSet = Returned setResult ->
    success setResult = false ->
    fallbackAllowed params
      (getCommandErrorText (Some (output setResult)) (error setResult)) = false ->
    ProtocolEnd
      (Returned (createErrorResponse (lit "Failed to set plist value")
                   (lit "set_error: "
                      ++ getCommandErrorText (Some (output setResult))
                           (error setResult))))
      [theRead; theSet]
| AddRejected setResult e :
    answerTo executor [theRead] theSet = Returned setResult ->
    success setResult = false ->
    fallbackAllowed params
      (getCommandErrorText (Some (output setResult)) (error setResult)) = true ->
    answerTo executor [theRead; theSet] theAdd = Threw e ->
    ProtocolEnd (Threw e) [theRead; theSet; theAdd]
| AddFailed setResult addResult :
    answerTo executor [theRead] theSet = Returned setResult ->
    success setResult = false ->
    fallbackAllowed params
      (getCommandErrorText (Some (output setResult)) (error setResult)) = true ->
    answerTo executor [theRead; theSet] theAdd = Returned addResult ->
    success addResult = false ->
    ProtocolEnd
      (Returned (createErrorResponse (lit "Failed to set plist value")
                   (join [LF]
                      [lit "set_error: "
                         ++ getCommandErrorText (Some (output setResult))
                              (error setResult);
                       lit "add_error: "
                         ++ getCommandErrorText (Some (output addResult))
                              (error addResult)])))
      [theRead; theSet; theAdd]
| AddDone setResult addResult result log :
    answerTo executor [theRead] theSet = Returned setResult ->
    success setResult = false ->
    fallbackAllowed params
      (getCommandErrorText (Some (output setResult)) (error setResult)) = true ->
    answerTo executor [theRead; theSet] theAdd = Returned addResult ->
    success addResult = true ->
    VerifyEnd [theRead; theSet; theAdd] result log ->
    ProtocolEnd result log.

End ProtocolEnds.

(** ** Fixtures *)

(** Modelled from the spec: [createErrorResponse] of utils/responses, which is
    not among the sources; it builds the structured error object of the tool,
    flagged as an error, with the message and the details in its text. *)
Definition plainErrorResponse (message details : jsstring) : ToolResponse :=
  {| content := [{| type_ := lit "text";
                    text := lit "Error: " ++ message ++ [LF] ++ lit "Details: " ++ details |}];
     isError := true |}.

Definition mockResponse (ok : bool) (out : jsstring) (err : option jsstring)
    : CommandResponse :=
  {| success := ok; output := out; error := err |}.

(** The PlistBuddy command of an executor call, [command[2]]. *)
Definition plistCommandOf (command : list jsstring) : jsstring :=
  nth 2 command [].

Definition sameCommand (plistCommand : jsstring) (c : Call) : bool :=
  match c with
  | CallExecutor command _ => streqb (plistCommandOf command) plistCommand
  | _ => false
  end.

Fixpoint lookupCommand (table : list (jsstring * list (Outcome CommandResponse)))
    (plistCommand : jsstring) : option (list (Outcome CommandResponse)) :=
  match table with
  | [] => None
  | (k, answers) :: table' =>
      if streqb k plistCommand then Some answers else lookupCommand table' plistCommand
  end.

(** A mock executor in the style of the tool's tests: it matches on the
    PlistBuddy command and, for a command seen [n] times before, gives the
    answer of rank [n] (the last one from then on); any other command fails as
    unexpected. *)
Definition matchingExecutor (table : list (jsstring * list (Outcome CommandResponse)))
    : CommandExecutor :=
  fun log command _ =>
    let plistCommand := plistCommandOf command in
    match lookupCommand table plistCommand with
    | Some answers =>
        let seen := length (List.filter (sameCommand plistCommand) log) in
        nth (Nat.min seen (Nat.pred (length answers))) answers
          (Threw (ThrownError (lit "no answer")))
    | None =>
        Returned (mockResponse false []
                    (Some (lit "Unexpected command: " ++ join (lit " ") command)))
    end.

Definition fileSystemWith (fileExists : bool) : FileSystemExecutor :=
  {| existsSync := fun _ => Returned fileExists |}.

#[export] Instance plainResponses : Responses.
Proof.
  refine {| createErrorResponse := plainErrorResponse |}.
  - reflexivity.
  - intros message details. exists (lit "Error: "), ([LF] ++ lit "Details: " ++ details).
    reflexivity.
  - intros message details.
    exists (lit "Error: " ++ message ++ [LF] ++ lit "Details: "), [].
    cbn [plainErrorResponse responseText content text].
    rewrite app_nil_r. rewrite <- !app_assoc. reflexivity.
Defined.

Definition succeeds (out : jsstring) : Outcome CommandResponse :=
  Returned (mockResponse true out None).

Definition fails (err : jsstring) : Outcome CommandResponse :=
  Returned (mockResponse false [] (Some err)).

(** An executor whose process cannot be started: every call rejects. *)
Definition rejectingExecutor : CommandExecutor :=
  fun _ _ _ => Threw (ThrownError (lit "spawn /usr/libexec/PlistBuddy ENOENT")).

(** An executor that rejects its first call and resolves every later one. *)
Definition lateExecutor : CommandExecutor :=
  fun log _ _ =>
    match log with
    | [] => Threw (ThrownError (lit "read timed out"))
    | _ => succeeds (lit "New Name")
    end.

Definition displayNameParams : SetPlistValueParams :=
  {| plistPath := lit "/tmp/Info.plist";
     keyPath := lit "CFBundleDisplayName";
     value := lit "New Name";
     valueType := VString;
     createIfMissing := true |}.

Definition displayNameKey : jsstring := lit ":CFBundleDisplayName".

Definition displayNameValue : jsstring := [DQUOTE] ++ lit "New Name" ++ [DQUOTE].

Definition setDisplayName : jsstring :=
  lit "Set :CFBundleDisplayName " ++ [DQUOTE] ++ lit "New Name" ++ [DQUOTE].

(** The mock of the test that overwrites an existing display name. *)
Definition overwriteMock : CommandExecutor :=
  matchingExecutor
    [ (lit "Print :CFBundleDisplayName",
       [succeeds (lit "Old Name"); succeeds (lit "New Name")]);
      (setDisplayName, [succeeds []]) ].

(** The write goes through and the key cannot be read back. *)
Definition unreadableMock : CommandExecutor :=
  matchingExecutor
    [ (lit "Print :CFBundleDisplayName",
       [succeeds (lit "Old Name"); fails (lit "File is locked")]);
      (setDisplayName, [succeeds []]) ].

Definition countParams : SetPlistValueParams :=
  {| plistPath := lit "/tmp/Info.plist";
     keyPath := lit "Count";
     value := lit "13";
     valueType := VInt;
     createIfMissing := true |}.

(** The mock of the test where Set fails with a type mismatch. *)
Definition typeMismatchMock : CommandExecutor :=
  matchingExecutor
    [ (lit "Print :Count", [succeeds (lit "12")]);
      (lit "Set :Count 13", [fails (lit "Type mismatch while setting value")]) ].

(** A real value that is well formed and overflows to [Infinity]. *)
Definition opacityParams : SetPlistValueParams :=
  {| plistPath := lit "/tmp/Info.plist";
     keyPath := lit "Opacity";
     value := lit "1e999";
     valueType := VReal;
     createIfMissing := true |}.

Definition arbitraryLoadsParams : SetPlistValueParams :=
  {| plistPath := lit "/tmp/Info.plist";
     keyPath := lit "NSAppTransportSecurity:NSAllowsArbitraryLoads";
     value := lit "TRUE";
     valueType := VBool;
     createIfMissing := true |}.

(** The mock of the test where the key is absent and Add takes over. *)
Definition fallbackMock : CommandExecutor :=
  matchingExecutor
    [ (lit "Print :NSAppTransportSecurity:NSAllowsArbitraryLoads",
       [fails (lit "Entry Does Not Exist"); succeeds (lit "true")]);
      (lit "Set :NSAppTransportSecurity:NSAllowsArbitraryLoads true",
       [fails (lit "Entry Does Not Exist")]);
      (lit "Add :NSAppTransportSecurity:NSAllowsArbitraryLoads bool true",
       [succeeds []]) ].

Definition arbitraryLoadsKey : jsstring :=
  lit ":NSAppTransportSecurity:NSAllowsArbitraryLoads".

(** The key is absent and the file cannot be written: Set and Add both
    fail. *)
Definition readOnlyFileMock : CommandExecutor :=
  matchingExecutor
    [ (lit "Print :NSAppTransportSecurity:NSAllowsArbitraryLoads",
       [fails (lit "Entry Does Not Exist")]);
      (lit "Set :NSAppTransportSecurity:NSAllowsArbitraryLoads true",
       [fails (lit "Entry Does Not Exist")]);
      (lit "Add :NSAppTransportSecurity:NSAllowsArbitraryLoads bool true",
       [fails (lit "Could not write file")]) ].

(** A machine without AXe and without xcodemake, whose manifest cannot be
    read. *)
Definition bareImports : DoctorImports :=
  {| resolveAxeBinary := fun _ => None;
     isXcodemakeBinaryAvailable := fun _ => false;
     loadManifest := fun _ => Threw (ThrownError (lit "ENOENT: manifests"));
     process_env :=
       <[lit "XCODEBUILDMCP_SENTRY_DSN" := lit "dsn"]>
         (<[lit "HOME" := lit "/Users/dev"]>
            (<[lit "LANG" := lit "C"]> ∅)) |}.

(** An executor that answers by the rank of the call: the [n]-th call of a run
    gets the [n]-th answer, and a call past the script is rejected. *)
Definition scriptedExecutor (answers : list (Outcome CommandResponse)) : CommandExecutor :=
  fun log _ _ => nth (length log) answers (Threw (ThrownError (lit "no answer"))).

(** A machine where [which] finds every binary and every other command prints
    a version followed by a line feed. *)
Definition toolExecutor : CommandExecutor :=
  fun _ command _ =>
    match command with
    | first :: _ =>
        if streqb first (lit "which") then succeeds (lit "/usr/local/bin/tool")
        else succeeds (lit "2024.1.0" ++ [LF])
    | [] => fails (lit "empty command")
    end.

(** A machine with AXe resolved and a manifest of two workflows that share a
    tool. *)
Definition axeImports : DoctorImports :=
  {| resolveAxeBinary := fun _ => Some {| path := lit "/opt/axe/bin/axe" |};
     isXcodemakeBinaryAvailable := fun _ => true;
     loadManifest :=
       fun _ => Returned
                  {| workflows :=
                       [ (lit "simulator", [lit "boot_sim"; lit "build_sim"]);
                         (lit "device", [lit "build_device"; lit "build_sim"]) ] |};
     process_env := ∅ |}.

(** A manifest with a workflow named [__proto__]. *)
Definition protoImports : DoctorImports :=
  {| resolveAxeBinary := fun _ => None;
     isXcodemakeBinaryAvailable := fun _ => false;
     loadManifest :=
       fun _ => Returned
                  {| workflows :=
                       [ (lit "simulator", [lit "boot_sim"; lit "build_sim"]);
                         (lit "__proto__", [lit "clean"]);
                         (lit "device", [lit "build_device"; lit "build_sim"]) ] |};
     process_env := ∅ |}.

(** Xcode is installed and [xcode-select] fails. *)
Definition noSelectExecutor : CommandExecutor :=
  scriptedExecutor
    [ succeeds (lit "Xcode 15.0" ++ [LF] ++ lit "Build version 15A240d" ++ [LF]);
      fails (lit "xcode-select: error: unable to get active developer directory") ].

(** A complete Xcode installation. *)
Definition xcodeExecutor : CommandExecutor :=
  scriptedExecutor
    [ succeeds (lit "Xcode 15.0" ++ [LF] ++ lit "Build version 15A240d" ++ [LF]);
      succeeds (lit "/Applications/Xcode.app/Contents/Developer" ++ [LF]);
      succeeds (lit "/Applications/Xcode.app/Contents/Developer/usr/bin/xcodebuild"
                  ++ [LF]);
      succeeds (lit "xcrun version 70." ++ [LF]) ].

(** * Properties *)

(** ** Strings *)

Section StringFacts.

Implicit Types s t u : jsstring.

Lemma occursIn_refl s : occursIn s s.
Proof. exists [], []. by rewrite app_nil_r. Qed.

Lemma occursIn_app_l s t u : occursIn s t -> occursIn s (t ++ u).
Proof.
  intros (pre & post & ->). exists pre, (post ++ u).
  by rewrite <- !app_assoc.
Qed.

Lemma occursIn_app_r s t u : occursIn s t -> occursIn s (u ++ t).
Proof.
  intros (pre & post & ->). exists (u ++ pre), post.
  by rewrite <- !app_assoc.
Qed.

Lemma occursIn_trans s t u : occursIn s t -> occursIn t u -> occursIn s u.
Proof.
  intros Hst (pre & post & ->).
  by apply occursIn_app_r, occursIn_app_l.
Qed.

Lemma isEmpty_true s : isEmpty s = true <-> s = [].
Proof. destruct s; simpl; split; congruence. Qed.

Lemma isEmpty_false s : isEmpty s = false <-> s <> [].
Proof. destruct s; simpl; split; congruence. Qed.

Lemma trimStart_head s c t : trimStart s = c :: t -> isWhiteSpace c = false.
Proof.
  induction s as [|a s IH]; simpl; [discriminate|].
  destruct (isWhiteSpace a) eqn:Ha; [exact IH|].
  intros [= <- _]. exact Ha.
Qed.

(** What [trimStart] removes is white space, and what it keeps is a suffix. *)
Lemma trimStart_suffix s :
  exists w, s = w ++ trimStart s /\ forallb isWhiteSpace w = true.
Proof.
  induction s as [|a s (w & Hw & Hall)]; simpl.
  - by exists [].
  - destruct (isWhiteSpace a) eqn:Ha.
    + exists (a :: w). simpl. rewrite Ha, Hall. split; [by f_equal|done].
    + by exists [].
Qed.

Lemma trimStart_nil s : trimStart s = [] <-> forallb isWhiteSpace s = true.
Proof.
  induction s as [|a s IH]; simpl; [done|].
  destruct (isWhiteSpace a); simpl; [exact IH|]. split; discriminate.
Qed.

Lemma forallb_rev (f : char -> bool) s : forallb f (rev s) = forallb f s.
Proof.
  induction s as [|a s IH]; [done|].
  change (rev (a :: s)) with (rev s ++ [a]).
  rewrite forallb_app, IH. simpl. rewrite andb_true_r. apply andb_comm.
Qed.

Lemma trimEnd_prefix s :
  exists w, s = trimEnd s ++ w /\ forallb isWhiteSpace w = true.
Proof.
  unfold trimEnd. destruct (trimStart_suffix (rev s)) as (w & Hw & Hall).
  exists (rev w). split; [|by rewrite forallb_rev].
  rewrite <- rev_app_distr, <- Hw. by rewrite rev_involutive.
Qed.

Lemma trimEnd_last s t c : trimEnd s = t ++ [c] -> isWhiteSpace c = false.
Proof.
  unfold trimEnd. intros Heq.
  apply (f_equal (@rev char)) in Heq.
  rewrite rev_involutive, rev_app_distr in Heq. simpl in Heq.
  by apply trimStart_head in Heq.
Qed.

(** A trimmed string neither starts nor ends with white space. *)
Lemma trim_trimmed s : trimmed (trim s).
Proof.
  unfold trim. split.
  - intros c t Heq.
    destruct (trimEnd_prefix (trimStart s)) as (w & Hw & _).
    rewrite Heq in Hw. simpl in Hw. by apply trimStart_head in Hw.
  - intros t c Heq. by apply trimEnd_last in Heq.
Qed.

(** Only white space trims to nothing. *)
Lemma trim_nil s : trim s = [] <-> forallb isWhiteSpace s = true.
Proof.
  unfold trim, trimEnd. split.
  - intros Heq. apply (f_equal (@rev char)) in Heq.
    rewrite rev_involutive in Heq. simpl in Heq.
    apply trimStart_nil in Heq. rewrite forallb_rev in Heq.
    destruct (trimStart s) as [|c t] eqn:Hs.
    + by apply trimStart_nil.
    + apply trimStart_head in Hs. simpl in Heq. by rewrite Hs in Heq.
  - intros Hall. apply trimStart_nil in Hall. by rewrite Hall.
Qed.

Lemma emptyAfterTrim_true s : emptyAfterTrim s = true <-> trim s = [].
Proof. apply isEmpty_true. Qed.

End StringFacts.

(** ** Key paths *)

Section KeyPathFacts.

Implicit Types chars cur : jsstring.
Implicit Types segs out : list jsstring.

(** The parser follows the escape state of [endsEscaping] until it stops. *)
Lemma parseKeyPathLoop_ok chars : forall segs cur esc out,
  parseKeyPathLoop chars segs cur esc = ParseOk out ->
  out = segs ++ map trim (rawSegmentsFrom chars cur esc)
  /\ forallb (fun s => negb (emptyAfterTrim s)) (rawSegmentsFrom chars cur esc) = true
  /\ endsEscaping chars esc = false.
Proof.
  unfold emptyAfterTrim.
  induction chars as [|c rest IH]; intros segs cur esc out; simpl.
  - destruct esc; [discriminate|].
    destruct (isEmpty (trim cur)) eqn:He; [discriminate|].
    by intros [= <-].
  - destruct esc; [apply IH|].
    destruct (c =? BACKSLASH); [apply IH|].
    destruct (c =? COLON); [|apply IH].
    destruct (isEmpty (trim cur)) eqn:He; [discriminate|].
    intros Hp. apply IH in Hp as (-> & Hall & Hesc).
    simpl. by rewrite He, Hall, <- app_assoc.
Qed.

Lemma parseKeyPathLoop_complete chars : forall segs cur esc,
  forallb (fun s => negb (emptyAfterTrim s)) (rawSegmentsFrom chars cur esc) = true ->
  endsEscaping chars esc = false ->
  parseKeyPathLoop chars segs cur esc
  = ParseOk (segs ++ map trim (rawSegmentsFrom chars cur esc)).
Proof.
  unfold emptyAfterTrim.
  induction chars as [|c rest IH]; intros segs cur esc; simpl.
  - intros Hall ->. rewrite andb_true_r in Hall.
    apply negb_true_iff in Hall. by rewrite Hall.
  - destruct esc; [apply IH|].
    destruct (c =? BACKSLASH); [apply IH|].
    destruct (c =? COLON); [|apply IH].
    simpl. intros [Hc Hall]%andb_true_iff Hesc.
    apply negb_true_iff in Hc. rewrite Hc.
    rewrite IH by done. by rewrite <- app_assoc.
Qed.

Lemma parseKeyPathLoop_error chars : forall segs cur esc e,
  parseKeyPathLoop chars segs cur esc = ParseError e ->
  e = emptySegmentError
  \/ (e = unfinishedEscapeError /\ endsEscaping chars esc = true).
Proof.
  induction chars as [|c rest IH]; intros segs cur esc e; simpl.
  - destruct esc; [intros [= <-]; by right|].
    destruct (isEmpty (trim cur)); [intros [= <-]; by left|discriminate].
  - destruct esc; [apply IH|].
    destruct (c =? BACKSLASH); [apply IH|].
    destruct (c =? COLON); [|apply IH].
    destruct (isEmpty (trim cur)); [intros [= <-]; by left|apply IH].
Qed.

Lemma endsEscaping_snoc chars c esc :
  endsEscaping (chars ++ [c]) esc
  = if endsEscaping chars esc then false else c =? BACKSLASH.
Proof. unfold endsEscaping. by rewrite fold_left_app. Qed.

(** Read from the start, the escape state at the end is the parity of the
    closing run of backslashes. *)
Lemma endsEscaping_parity chars :
  endsEscaping chars false = Nat.odd (trailingBackslashes chars).
Proof.
  induction chars as [|c chars IH] using rev_ind; [done|].
  rewrite endsEscaping_snoc, IH.
  unfold trailingBackslashes. rewrite rev_app_distr. simpl.
  destruct (c =? BACKSLASH).
  - rewrite Nat.odd_succ, <- Nat.negb_odd.
    by destruct (Nat.odd _).
  - by destruct (Nat.odd _).
Qed.

(** A key path is accepted exactly when no escape is left open and no raw
    segment trims to nothing; the segments are then the trimmed raw ones. *)
Lemma parseKeyPathSegments_ok keyPath segments :
  parseKeyPathSegments keyPath = ParseOk segments <->
  segments = map trim (rawSegments keyPath)
  /\ forallb (fun s => negb (emptyAfterTrim s)) (rawSegments keyPath) = true
  /\ Nat.odd (trailingBackslashes keyPath) = false.
Proof.
  unfold parseKeyPathSegments, rawSegments. rewrite <- endsEscaping_parity. split.
  - intros Hp. by apply parseKeyPathLoop_ok in Hp.
  - intros (-> & Hall & Hesc). by rewrite parseKeyPathLoop_complete.
Qed.

Lemma parseKeyPathSegments_rejects keyPath :
  (exists s, In s (rawSegments keyPath) /\ trim s = [])
  \/ Nat.odd (trailingBackslashes keyPath) = true ->
  exists e, parseKeyPathSegments keyPath = ParseError e
            /\ (e = emptySegmentError
                \/ (e = unfinishedEscapeError
                    /\ Nat.odd (trailingBackslashes keyPath) = true)).
Proof.
  intros Hbad.
  destruct (parseKeyPathSegments keyPath) as [segments|e] eqn:Hp.
  - apply parseKeyPathSegments_ok in Hp as (_ & Hall & Hodd).
    destruct Hbad as [(s & Hin & Hs)|Hbad]; [|congruence].
    rewrite forallb_forall in Hall. apply Hall in Hin.
    apply emptyAfterTrim_true in Hs. by rewrite Hs in Hin.
  - exists e. split; [done|].
    unfold parseKeyPathSegments in Hp. apply parseKeyPathLoop_error in Hp.
    by rewrite endsEscaping_parity in Hp.
Qed.

End KeyPathFacts.

Section KeyPathClaims.

(** C6.  The key path [A\:B:C] parses to the segments [A:B] and [C], and these
    are re-escaped for PlistBuddy as [:A\:B:C].  In general a key path is
    rejected with a parse error when one of its colon-delimited segments is
    empty once trimmed, and when it ends with a backslash that is not itself
    escaped. *)
Theorem key_path_escaping :
  parseKeyPathSegments (lit "A\:B:C") = ParseOk [lit "A:B"; lit "C"]
  /\ normalizeKeyPathForPlistBuddy (lit "A\:B:C")
     = KeyPathOk [lit "A:B"; lit "C"] (lit ":A\:B:C")
  /\ (forall keyPath,
        (exists s, In s (rawSegments keyPath) /\ trim s = []) ->
        exists e, parseKeyPathSegments keyPath = ParseError e
                  /\ normalizeKeyPathForPlistBuddy keyPath = KeyPathError e)
  /\ (forall keyPath,
        Nat.odd (trailingBackslashes keyPath) = true ->
        exists e, parseKeyPathSegments keyPath = ParseError e
                  /\ normalizeKeyPathForPlistBuddy keyPath = KeyPathError e).
Proof.
  split; [reflexivity|]. split; [reflexivity|].
  split; intros keyPath Hbad.
  - destruct (parseKeyPathSegments_rejects keyPath) as (e & He & _); [by left|].
    exists e. unfold normalizeKeyPathForPlistBuddy. by rewrite He.
  - destruct (parseKeyPathSegments_rejects keyPath) as (e & He & _); [by right|].
    exists e. unfold normalizeKeyPathForPlistBuddy. by rewrite He.
Qed.

Lemma key_path_escaping_witness :
  (exists e, parseKeyPathSegments (lit "A: :C") = ParseError e
             /\ normalizeKeyPathForPlistBuddy (lit "A: :C") = KeyPathError e)
  /\ (exists e, parseKeyPathSegments (lit "A:B\\\") = ParseError e
                /\ normalizeKeyPathForPlistBuddy (lit "A:B\\\") = KeyPathError e).
Proof.
  destruct key_path_escaping as (_ & _ & Hempty & Hopen). split.
  - apply Hempty. exists (lit " "). split; [|reflexivity].
    vm_compute. right. left. reflexivity.
  - apply Hopen. reflexivity.
Defined.

(** C10.  Every segment of an accepted key path is the trimmed form of the
    segment as typed: it is not empty and has no white space at either end, so
    no key path addresses a key whose name begins or ends with a space; the
    trimmed segments are the ones re-escaped for PlistBuddy.  A segment made
    of white space only is rejected, as an empty segment unless the path also
    ends in an open escape. *)
Theorem segments_are_trimmed (keyPath : jsstring) :
  (forall segments,
      parseKeyPathSegments keyPath = ParseOk segments ->
      segments = map trim (rawSegments keyPath)
      /\ Forall (fun s => s <> [] /\ trimmed s) segments
      /\ normalizeKeyPathForPlistBuddy keyPath
         = KeyPathOk segments
             (COLON :: join [COLON]
                (map escapeKeySegmentForPlistBuddy (map trim (rawSegments keyPath)))))
  /\ ((exists s, In s (rawSegments keyPath) /\ forallb isWhiteSpace s = true) ->
      exists e, parseKeyPathSegments keyPath = ParseError e
                /\ (Nat.odd (trailingBackslashes keyPath) = false ->
                    e = emptySegmentError)).
Proof.
  split.
  - intros segments Hp.
    unfold normalizeKeyPathForPlistBuddy. rewrite Hp.
    apply parseKeyPathSegments_ok in Hp as (-> & Hall & _).
    split; [done|]. split; [|done].
    apply Forall_forall. intros s Hs%list_elem_of_In.
    apply in_map_iff in Hs as [raw [<- Hin]].
    split; [|apply trim_trimmed].
    rewrite forallb_forall in Hall. apply Hall in Hin.
    apply negb_true_iff, isEmpty_false in Hin. exact Hin.
  - intros (s & Hin & Hws).
    destruct (parseKeyPathSegments_rejects keyPath) as (e & He & Hkind).
    { left. exists s. split; [done|]. by apply trim_nil. }
    exists e. split; [done|]. intros Heven.
    destruct Hkind as [->|[_ Hodd]]; [done|congruence].
Qed.

Lemma segments_are_trimmed_witness :
  parseKeyPathSegments (lit " A : B\  ") = ParseOk [lit "A"; lit "B"]
  /\ (exists e, parseKeyPathSegments (lit "A:  :C") = ParseError e
                /\ (Nat.odd (trailingBackslashes (lit "A:  :C")) = false ->
                    e = emptySegmentError)).
Proof.
  split; [reflexivity|].
  apply (segments_are_trimmed (lit "A:  :C")).
  exists (lit "  "). split; [|reflexivity].
  vm_compute. right. left. reflexivity.
Defined.

End KeyPathClaims.

(** ** Values *)

Section ValueFacts.

Lemma streqb_eq (a b : jsstring) : streqb a b = true <-> a = b.
Proof.
  revert b. induction a as [|x a IH]; intros [|y b]; simpl; try done.
  rewrite andb_true_iff, N.eqb_eq, IH. split; [by intros [-> ->]|].
  by intros [= -> ->].
Qed.

Lemma quoteLoop_flat_map (chars escaped : jsstring) :
  quoteLoop chars escaped = escaped ++ flat_map escapedChar chars.
Proof.
  revert escaped. induction chars as [|c chars IH]; intros escaped; simpl.
  - by rewrite app_nil_r.
  - unfold escapedChar.
    repeat (destruct (c =? _); [by rewrite IH, <- app_assoc|]).
    by rewrite IH, <- app_assoc.
Qed.

Lemma quotePlistBuddyString_quoted (value : jsstring) :
  quotePlistBuddyString value = quoted value.
Proof. unfold quotePlistBuddyString, quoted. by rewrite quoteLoop_flat_map. Qed.

End ValueFacts.

(** ** Literal grammars *)

Section GrammarFacts.

Implicit Types s m e digits sign : list N.

Lemma digit_not_sign c : isDigit c = true -> isSign c = false.
Proof.
  unfold isDigit, isSign, PLUS, MINUS. intros [H1 H2]%andb_true_iff.
  apply N.leb_le in H1, H2. apply orb_false_iff. split; apply N.eqb_neq; lia.
Qed.

Lemma digit_not_mark c : isDigit c = true -> isExponentMark c = false.
Proof.
  unfold isDigit, isExponentMark. intros [H1 H2]%andb_true_iff.
  apply N.leb_le in H1, H2. apply orb_false_iff. split; apply N.eqb_neq; lia.
Qed.

Lemma digit_not_dot c : isDigit c = true -> (c =? DOT) = false.
Proof.
  unfold isDigit, DOT. intros [H1 H2]%andb_true_iff.
  apply N.leb_le in H1, H2. apply N.eqb_neq. lia.
Qed.

Lemma isSign_true c : isSign c = true -> c = PLUS \/ c = MINUS.
Proof.
  unfold isSign. intros [Hc|Hc]%orb_true_iff; apply N.eqb_eq in Hc; auto.
Qed.

Lemma isDigits1_true digits :
  isDigits1 digits = true <-> digits <> [] /\ digitString digits.
Proof.
  unfold isDigits1, digitString. rewrite andb_true_iff, negb_true_iff.
  by rewrite isEmpty_false.
Qed.

(** A string is its optional sign followed by what [dropSign] keeps. *)
Lemma dropSign_split s : exists sign, signPrefix sign /\ s = sign ++ dropSign s.
Proof.
  destruct s as [|c s]; [by exists []; split; [left|]|]. simpl.
  destruct (isSign c) eqn:Hc.
  - exists [c]. split; [|done].
    destruct (isSign_true c Hc) as [->| ->]; [right; by left|right; by right].
  - exists []. split; [by left|done].
Qed.

Lemma dropSign_signed sign s :
  signPrefix sign ->
  match s with c :: _ => isSign c = false | [] => True end ->
  dropSign (sign ++ s) = s.
Proof.
  intros [->|[->| ->]] Hs; [|done|done].
  destruct s as [|c s]; [done|]. simpl. by rewrite Hs.
Qed.

Lemma matchesIntegerPattern_literal s :
  matchesIntegerPattern s = true <-> integerLiteral s.
Proof.
  unfold matchesIntegerPattern. rewrite isDigits1_true. split.
  - intros [Hne Hdigits]. destruct (dropSign_split s) as (sign & Hsign & Hs).
    by exists sign, (dropSign s).
  - intros (sign & digits & -> & Hsign & Hne & Hdigits).
    rewrite dropSign_signed; [done|done|].
    destruct digits as [|d digits]; [done|].
    apply digit_not_sign. unfold digitString in Hdigits.
    simpl in Hdigits. by apply andb_true_iff in Hdigits as [? _].
Qed.

Lemma spanUntil_inv (stop : N -> bool) s a b :
  spanUntil stop s = (a, b) ->
  s = a ++ b
  /\ forallb (fun c => negb (stop c)) a = true
  /\ match b with c :: _ => stop c = true | [] => True end.
Proof.
  revert a b. induction s as [|c s IH]; intros a b; simpl.
  - by intros [= <- <-].
  - destruct (stop c) eqn:Hc.
    + by intros [= <- <-].
    + destruct (spanUntil stop s) as [a' b'] eqn:Hs. intros [= <- <-].
      destruct (IH _ _ eq_refl) as (-> & Hall & Hb). simpl. by rewrite Hc.
Qed.

Lemma spanUntil_app (stop : N -> bool) a b :
  forallb (fun c => negb (stop c)) a = true ->
  match b with c :: _ => stop c = true | [] => True end ->
  spanUntil stop (a ++ b) = (a, b).
Proof.
  induction a as [|c a IH]; simpl.
  - destruct b as [|c b]; [done|]. intros _ Hc. simpl. by rewrite Hc.
  - intros [Hc Ha]%andb_true_iff Hb. apply negb_true_iff in Hc.
    by rewrite Hc, IH.
Qed.

Lemma digitString_none (stop : N -> bool) digits :
  (forall c, isDigit c = true -> stop c = false) ->
  digitString digits ->
  forallb (fun c => negb (stop c)) digits = true.
Proof.
  intros Hstop Hdigits. apply forallb_forall. intros c Hc.
  unfold digitString in Hdigits. rewrite forallb_forall in Hdigits.
  by rewrite Hstop by by apply Hdigits.
Qed.

Lemma digitString_app a b : digitString (a ++ b) <-> digitString a /\ digitString b.
Proof. unfold digitString. by rewrite forallb_app, andb_true_iff. Qed.

Lemma matchesMantissa_literal m : matchesMantissa m = true <-> mantissaLiteral m.
Proof.
  unfold matchesMantissa. split.
  - destruct (spanUntil (fun c => c =? DOT) m) as [intPart afterInt] eqn:Hspan.
    apply spanUntil_inv in Hspan as (-> & _ & Hdot).
    destruct afterInt as [|c fracPart].
    + intros Hdigits%isDigits1_true. right. by rewrite app_nil_r.
    + apply N.eqb_eq in Hdot as ->.
      intros [[Hint Hfrac]%andb_true_iff Hne]%andb_true_iff.
      left. exists intPart, fracPart. split; [done|]. split; [done|]. split; [done|].
      apply orb_true_iff in Hne as [Hne|Hne]; apply negb_true_iff, isEmpty_false in Hne;
        auto.
  - intros [(intPart & fracPart & -> & Hint & Hfrac & Hne)|[Hne Hdigits]].
    + rewrite spanUntil_app; [|by apply digitString_none; [apply digit_not_dot|]|done].
      unfold digitString in Hint, Hfrac. simpl. rewrite Hint, Hfrac. simpl.
      destruct Hne as [Hne|Hne]; apply isEmpty_false in Hne; rewrite Hne; simpl;
        [done|apply orb_true_r].
    + rewrite <- (app_nil_r m) at 1.
      rewrite spanUntil_app; [|by apply digitString_none; [apply digit_not_dot|]|done].
      by apply isDigits1_true.
Qed.

(** A mantissa starts with a digit or a dot and holds no exponent mark. *)
Lemma mantissaLiteral_shape m :
  mantissaLiteral m ->
  match m with c :: _ => isSign c = false | [] => False end
  /\ forallb (fun c => negb (isExponentMark c)) m = true.
Proof.
  intros [(intPart & fracPart & -> & Hint & Hfrac & Hne)|[Hne Hdigits]].
  - split.
    + destruct intPart as [|d intPart]; [done|]. simpl.
      apply digit_not_sign. unfold digitString in Hint. simpl in Hint.
      by apply andb_true_iff in Hint as [? _].
    + rewrite !forallb_app, andb_true_iff. split; [|apply andb_true_iff; split].
      * by apply digitString_none; [apply digit_not_mark|].
      * done.
      * by apply digitString_none; [apply digit_not_mark|].
  - split.
    + destruct m as [|d m]; [done|]. apply digit_not_sign.
      unfold digitString in Hdigits. simpl in Hdigits.
      by apply andb_true_iff in Hdigits as [? _].
    + by apply digitString_none; [apply digit_not_mark|].
Qed.

Lemma matchesRealPattern_literal s : matchesRealPattern s = true <-> realLiteral s.
Proof.
  unfold matchesRealPattern. split.
  - destruct (spanUntil isExponentMark (dropSign s)) as [mantissa after] eqn:Hspan.
    apply spanUntil_inv in Hspan as (Hs & _ & Hmark).
    intros [Hm%matchesMantissa_literal Hafter]%andb_true_iff.
    destruct (dropSign_split s) as (sign & Hsign & Hsplit).
    exists sign, mantissa, after. rewrite <- Hs. split; [done|]. split; [done|].
    split; [done|]. destruct after as [|mark exponent]; [by left|].
    right. exists mark, exponent. split; [done|]. split; [done|].
    by apply matchesIntegerPattern_literal.
  - intros (sign & mantissa & exponent & -> & Hsign & Hm & He).
    destruct (mantissaLiteral_shape mantissa Hm) as [Hhead Hnone].
    rewrite dropSign_signed; [|done|by destruct mantissa].
    rewrite spanUntil_app; [|done|].
    + apply matchesMantissa_literal in Hm. rewrite Hm. simpl.
      destruct He as [->|(mark & rest & -> & _ & Hrest)]; [done|].
      by apply matchesIntegerPattern_literal.
    + by destruct He as [->|(mark & rest & -> & Hmark & _)].
Qed.

(** [validateValueForType] accepts exactly the values that fit the grammar of
    their type. *)
Lemma validateValueForType_grammar (value : list N) (valueType : PlistValueType) :
  validateValueForType value valueType = None <-> fitsGrammar value valueType.
Proof.
  unfold validateValueForType, fitsGrammar. destruct valueType.
  - done.
  - rewrite <- !streqb_eq.
    destruct (streqb _ (lit "true")), (streqb _ (lit "false")); simpl;
      split; auto; try discriminate; intros [?|?]; discriminate.
  - rewrite <- matchesIntegerPattern_literal.
    by destruct (matchesIntegerPattern _).
  - rewrite <- matchesRealPattern_literal.
    destruct (matchesRealPattern _), (numberIsFinite _); simpl;
      split; auto; try discriminate; by intros [? ?].
Qed.

End GrammarFacts.

(** ** The plist tool *)

Section SetPlistValueFacts.

Context `{Responses}.

Variable params : SetPlistValueParams.
Variable executor : CommandExecutor.
Variable fileSystemExecutor : FileSystemExecutor.

Lemma normalizeKeyPath_nonempty keyPath segments plistBuddyKeyPath :
  normalizeKeyPathForPlistBuddy keyPath = KeyPathOk segments plistBuddyKeyPath ->
  isEmpty plistBuddyKeyPath = false.
Proof.
  unfold normalizeKeyPathForPlistBuddy.
  destruct (parseKeyPathSegments keyPath); [|discriminate].
  by intros [= _ <-].
Qed.

(** Once the three checks have passed, the tool is its command protocol. *)
Lemma set_plist_valueLogic_preflight plistBuddyKeyPath commandValue log :
  preflightPasses params fileSystemExecutor plistBuddyKeyPath commandValue ->
  set_plist_valueLogic params executor fileSystemExecutor log
  = writeAndVerify params plistBuddyKeyPath commandValue executor log.
Proof.
  intros (Hfile & (segments & Hkey) & (normalizedValue & Hvalue)).
  unfold set_plist_valueLogic, bind, liftOutcome.
  rewrite Hfile. cbn [negb]. rewrite Hkey.
  rewrite (normalizeKeyPath_nonempty _ _ _ Hkey). by rewrite Hvalue.
Qed.

Lemma isAddCall_read plistBuddyKeyPath : isAddCall (readCall params plistBuddyKeyPath) = false.
Proof. reflexivity. Qed.

Lemma isAddCall_set plistBuddyKeyPath commandValue :
  isAddCall (setCall params plistBuddyKeyPath commandValue) = false.
Proof. reflexivity. Qed.

Lemma isAddCall_add plistBuddyKeyPath commandValue :
  isAddCall (addCall params plistBuddyKeyPath commandValue) = true.
Proof. reflexivity. Qed.

Lemma isAddCall_verify plistBuddyKeyPath :
  isAddCall (verifyCall params plistBuddyKeyPath) = false.
Proof. reflexivity. Qed.

Lemma successText_final finalValue previousValue :
  occursIn (lit "'" ++ finalValue ++ lit "'")
    (successText params finalValue previousValue).
Proof.
  unfold successText.
  exists (lit "Set plist key '" ++ keyPath params ++ lit "' in '" ++ plistPath params
            ++ lit "' to ").
  exists (lit "." ++ match previousValue with
                     | Some previous => lit " Previous value: " ++ previous ++ lit "."
                     | None => []
                     end).
  rewrite <- !app_assoc. reflexivity.
Qed.


Lemma Returned_inj {A} (a b : A) : Returned a = Returned b -> a = b.
Proof. by intros [= ->]. Qed.

Lemma run_result {A} (o o' : Outcome A) (log log' : list Call) :
  (o, log) = (o', log') -> o' = o /\ log' = log.
Proof. by intros [= -> ->]. Qed.

Lemma createErrorResponse_marker message marker rest :
  occursIn marker (responseText (createErrorResponse message (marker ++ rest))).
Proof.
  eapply occursIn_trans; [|apply createErrorResponse_details].
  apply occursIn_app_l, occursIn_refl.
Qed.

Lemma runPlistBuddyCommand_run plistCommand path logPrefix log :
  runPlistBuddyCommand plistCommand path executor logPrefix log
  = (answerTo executor log (plistCall plistCommand path logPrefix),
     log ++ [plistCall plistCommand path logPrefix]).
Proof.
  unfold runPlistBuddyCommand, bind, callExecutor, ret, answerTo, plistCall.
  by destruct (executor log _ _) as [[]|].
Qed.

Lemma readPreviousValue_run plistBuddyKeyPath log :
  readPreviousValue params plistBuddyKeyPath executor log
  = (Returned (previousValueOf (valueType params)
                 (answerTo executor log (readCall params plistBuddyKeyPath))),
     log ++ [readCall params plistBuddyKeyPath]).
Proof.
  unfold readPreviousValue, tryCatch, bind. rewrite runPlistBuddyCommand_run.
  fold (readCall params plistBuddyKeyPath).
  by destruct (answerTo executor log _).
Qed.

Lemma verifyAndReport_run plistBuddyKeyPath previousValue log :
  verifyAndReport params plistBuddyKeyPath executor previousValue log
  = (match answerTo executor log (verifyCall params plistBuddyKeyPath) with
     | Returned verifyResult =>
         Returned
           (if success verifyResult then
              {| content :=
                   [{| type_ := lit "text";
                       text := successText params
                                 (normalizeDisplayedValue (output verifyResult)
                                    (valueType params))
                                 previousValue |}];
                 isError := false |}
            else
              createErrorResponse (lit "Failed to verify plist write")
                (lit "verify_error: "
                   ++ getCommandErrorText (Some (output verifyResult))
                        (error verifyResult)))
     | Threw e => Threw e
     end,
     log ++ [verifyCall params plistBuddyKeyPath]).
Proof.
  unfold verifyAndReport, bind. rewrite runPlistBuddyCommand_run.
  fold (verifyCall params plistBuddyKeyPath).
  destruct (answerTo executor log _) as [verifyResult|]; [|done].
  by destruct (success verifyResult).
Qed.

Lemma handleSetFailure_run plistBuddyKeyPath commandValue setResult log :
  let setErrorText :=
    getCommandErrorText (Some (output setResult)) (error setResult) in
  handleSetFailure params plistBuddyKeyPath commandValue executor setResult log
  = if fallbackAllowed params setErrorText then
      (match answerTo executor log (addCall params plistBuddyKeyPath commandValue) with
       | Returned addResult =>
           Returned
             (if success addResult then None
              else Some (createErrorResponse (lit "Failed to set plist value")
                           (join [LF]
                              [lit "set_error: " ++ setErrorText;
                               lit "add_error: "
                                 ++ getCommandErrorText (Some (output addResult))
                                      (error addResult)])))
       | Threw e => Threw e
       end,
       log ++ [addCall params plistBuddyKeyPath commandValue])
    else
      (Returned (Some (createErrorResponse (lit "Failed to set plist value")
                         (lit "set_error: " ++ setErrorText))),
       log).
Proof.
  intros setErrorText. unfold handleSetFailure, fallbackAllowed.
  fold setErrorText.
  destruct (createIfMissing params); cbn [negb andb]; [|done].
  destruct (classifySetFailure setErrorText); cbn [isNonMissing negb]; [|done|].
  all: unfold bind; rewrite runPlistBuddyCommand_run;
    fold (addCall params plistBuddyKeyPath commandValue);
    (destruct (answerTo executor log _) as [addResult|]; [|done]);
    by destruct (success addResult).
Qed.

(** The command protocol, one call after the other. *)
Lemma writeAndVerify_run plistBuddyKeyPath commandValue :
  let read := readCall params plistBuddyKeyPath in
  let set := setCall params plistBuddyKeyPath commandValue in
  let previousValue := previousValueOf (valueType params) (answerTo executor [] read) in
  run (writeAndVerify params plistBuddyKeyPath commandValue executor)
  = match answerTo executor [read] set with
    | Threw e => (Threw e, [read; set])
    | Returned setResult =>
        if success setResult then
          verifyAndReport params plistBuddyKeyPath executor previousValue [read; set]
        else
          match handleSetFailure params plistBuddyKeyPath commandValue executor
                  setResult [read; set] with
          | (Returned (Some response), log) => (Returned response, log)
          | (Returned None, log) =>
              verifyAndReport params plistBuddyKeyPath executor previousValue log
          | (Threw e, log) => (Threw e, log)
          end
    end.
Proof.
  intros read set previousValue.
  unfold run, writeAndVerify, bind at 1. rewrite readPreviousValue_run.
  unfold bind at 1. rewrite runPlistBuddyCommand_run.
  fold (setCall params plistBuddyKeyPath commandValue). fold read set.
  change ([] ++ [read]) with [read].
  destruct (answerTo executor [read] set) as [setResult|]; [|done].
  change ([read] ++ [set]) with [read; set].
  unfold bind. destruct (success setResult); cbn [negb]; [done|].
  by destruct (handleSetFailure _ _ _ _ _ _) as [[[?|]|] ?].
Qed.

End SetPlistValueFacts.

Section PreflightClaim.

Context `{Responses}.

(** A failed check ends the run before any command. *)
Lemma preflight_stops
    (params : SetPlistValueParams) (executor : CommandExecutor)
    (fileSystemExecutor : FileSystemExecutor) (fileExists : bool) :
  existsSync fileSystemExecutor (plistPath params) = Returned fileExists ->
  fileExists = false
  \/ (exists e, parseKeyPathSegments (keyPath params) = ParseError e)
  \/ (exists e, validateValueForType (value params) (valueType params) = Some e) ->
  exists response,
    run (set_plist_valueLogic params executor fileSystemExecutor)
    = (Returned response, [])
    /\ isError response = true.
Proof.
  intros Hfile Hbad.
  unfold run, set_plist_valueLogic, bind, liftOutcome. rewrite Hfile.
  destruct fileExists; cbn [negb].
  2:{ eexists. split; [reflexivity|apply createErrorResponse_isError]. }
  destruct Hbad as [?|[(e & Hkey)|(e & Hvalue)]]; [done| |].
  - unfold normalizeKeyPathForPlistBuddy. rewrite Hkey.
    eexists. split; [reflexivity|apply createErrorResponse_isError].
  - destruct (normalizeKeyPathForPlistBuddy (keyPath params)) as [segments kp|e'].
    2:{ eexists. split; [reflexivity|apply createErrorResponse_isError]. }
    destruct (isEmpty kp).
    { eexists. split; [reflexivity|apply createErrorResponse_isError]. }
    unfold normalizeValueForType. rewrite Hvalue.
    eexists. split; [reflexivity|apply createErrorResponse_isError].
Qed.

(** C5.  When the plist file does not exist, or the key path does not parse,
    or the value does not fit the literal grammar of its type ([true|false]
    for a bool, an integer literal for an int, a real literal of finite value
    for a real), the tool returns an error response and no command has been
    given to the executor. *)
Theorem preflight_runs_no_command
    (params : SetPlistValueParams) (executor : CommandExecutor)
    (fileSystemExecutor : FileSystemExecutor) (fileExists : bool) :
  existsSync fileSystemExecutor (plistPath params) = Returned fileExists ->
  fileExists = false
  \/ (exists e, parseKeyPathSegments (keyPath params) = ParseError e)
  \/ ~ fitsGrammar (value params) (valueType params) ->
  exists response,
    run (set_plist_valueLogic params executor fileSystemExecutor)
    = (Returned response, [])
    /\ isError response = true
    /\ executorCommands (snd (run (set_plist_valueLogic params executor
                                     fileSystemExecutor))) = [].
Proof.
  intros Hfile Hbad.
  destruct (preflight_stops params executor fileSystemExecutor fileExists Hfile)
    as (response & Hrun & Herror).
  - destruct Hbad as [?|[?|Hunfit]]; [by left|by right; left|].
    right. right.
    destruct (validateValueForType (value params) (valueType params)) as [e|] eqn:Hv;
      [by exists e|].
    by apply validateValueForType_grammar in Hv.
  - exists response. by rewrite Hrun.
Qed.

End PreflightClaim.

Section ProtocolClaims.

Context `{Responses}.

Variable params : SetPlistValueParams.
Variable executor : CommandExecutor.
Variable fileSystemExecutor : FileSystemExecutor.
Variable plistBuddyKeyPath commandValue : jsstring.

Local Abbreviation theRead := (readCall params plistBuddyKeyPath).
Local Abbreviation theSet := (setCall params plistBuddyKeyPath commandValue).
Local Abbreviation theAdd := (addCall params plistBuddyKeyPath commandValue).
Local Abbreviation theVerify := (verifyCall params plistBuddyKeyPath).

(** C2.  When the Set command fails, an Add command is issued if and only if
    [createIfMissing] is true and the failure text is not classified as
    non-missing.  With [createIfMissing] false or a non-missing failure the
    tool returns at once an error showing [set_error:], having issued the
    read and the Set only; with [createIfMissing] true and a missing-key or
    unknown failure the Add command follows the Set. *)
Theorem add_fallback_policy (setResult : CommandResponse)
    (result : Outcome ToolResponse) (log : list Call) :
  preflightPasses params fileSystemExecutor plistBuddyKeyPath commandValue ->
  answerTo executor [theRead] theSet = Returned setResult ->
  success setResult = false ->
  run (set_plist_valueLogic params executor fileSystemExecutor) = (result, log) ->
  let setErrorText :=
    getCommandErrorText (Some (output setResult)) (error setResult) in
  (existsb isAddCall log = true
   <-> createIfMissing params = true
       /\ classifySetFailure setErrorText <> NonMissing)
  /\ (createIfMissing params = false \/ classifySetFailure setErrorText = NonMissing ->
      result = Returned (createErrorResponse (lit "Failed to set plist value")
                           (lit "set_error: " ++ setErrorText))
      /\ log = [theRead; theSet]
      /\ (forall response, result = Returned response ->
            isError response = true
            /\ occursIn (lit "set_error:") (responseText response)))
  /\ (createIfMissing params = true ->
      classifySetFailure setErrorText = MissingKey
      \/ classifySetFailure setErrorText = UnknownFailure ->
      exists rest, log = [theRead; theSet; theAdd] ++ rest).
Proof.
  intros Hpre Hset Hfail Hrun setErrorText.
  unfold run in Hrun.
  rewrite (set_plist_valueLogic_preflight _ _ _ _ _ _ Hpre) in Hrun.
  pose proof (writeAndVerify_run params executor plistBuddyKeyPath commandValue) as Heq.
  cbv zeta in Heq. unfold run in Heq. rewrite Heq in Hrun. clear Heq.
  rewrite Hset, Hfail in Hrun.
  pose proof (handleSetFailure_run params executor plistBuddyKeyPath commandValue
                setResult [theRead; theSet]) as Heq.
  cbv zeta in Heq. rewrite Heq in Hrun. clear Heq.
  fold setErrorText in Hrun. unfold fallbackAllowed in Hrun.
  destruct (createIfMissing params) eqn:Hcreate; cbn [andb] in Hrun.
  2:{ apply run_result in Hrun as [-> ->]. split; [|split].
      - split; [discriminate|]. by intros [? _].
      - intros _. split; [done|]. split; [done|].
        intros response Hr. apply Returned_inj in Hr as <-.
        split; [apply createErrorResponse_isError|].
        apply (createErrorResponse_marker _ (lit "set_error:") (lit " " ++ setErrorText)).
      - discriminate. }
  destruct (classifySetFailure setErrorText) eqn:Hclass; cbn [isNonMissing negb] in Hrun.
  2:{ apply run_result in Hrun as [-> ->]. split; [|split].
      - split; [discriminate|]. by intros [_ ?].
      - intros _. split; [done|]. split; [done|].
        intros response Hr. apply Returned_inj in Hr as <-.
        split; [apply createErrorResponse_isError|].
        apply (createErrorResponse_marker _ (lit "set_error:") (lit " " ++ setErrorText)).
      - by intros _ [|]. }
  all: assert (Hlog : exists rest, log = [theRead; theSet; theAdd] ++ rest).
  1,3: destruct (answerTo executor [theRead; theSet] theAdd) as [addResult|];
       [destruct (success addResult);
        [rewrite verifyAndReport_run in Hrun|]|];
       apply run_result in Hrun as [-> ->]; by eexists.
  all: destruct Hlog as [rest ->]; split; [|split];
       [split; [done|intros _]
       |by intros [|]
       |by eexists].
  all: cbn [existsb app];
       by rewrite isAddCall_read, isAddCall_set, isAddCall_add.
Qed.


(** C7.  When the Set command, or the Add command that replaces it, succeeds
    and the verification read then fails, the tool returns an error response
    summarised as a failure to verify the write, whose details start with the
    marker [verify_error:] and therefore with neither [set_error:] nor
    [add_error:]; the marker shows in the text of the response. *)
Theorem unverified_write_is_reported (setResult verifyResult : CommandResponse)
    (log : list Call) :
  preflightPasses params fileSystemExecutor plistBuddyKeyPath commandValue ->
  answerTo executor [theRead] theSet = Returned setResult ->
  (success setResult = true /\ log = [theRead; theSet])
  \/ (success setResult = false
      /\ createIfMissing params = true
      /\ classifySetFailure
           (getCommandErrorText (Some (output setResult)) (error setResult))
         <> NonMissing
      /\ (exists addResult,
            answerTo executor [theRead; theSet] theAdd = Returned addResult
            /\ success addResult = true)
      /\ log = [theRead; theSet; theAdd]) ->
  answerTo executor log theVerify = Returned verifyResult ->
  success verifyResult = false ->
  let details :=
    lit "verify_error: "
      ++ getCommandErrorText (Some (output verifyResult)) (error verifyResult) in
  let response := createErrorResponse (lit "Failed to verify plist write") details in
  run (set_plist_valueLogic params executor fileSystemExecutor)
  = (Returned response, log ++ [theVerify])
  /\ isError response = true
  /\ occursIn (lit "verify_error:") (responseText response)
  /\ startsWith details (lit "verify_error:") = true
  /\ startsWith details (lit "set_error:") = false
  /\ startsWith details (lit "add_error:") = false.
Proof.
  intros Hpre Hset Hwritten Hverify Hverify_fail details response.
  split; [|split; [apply createErrorResponse_isError|split]].
  - unfold run.
    rewrite (set_plist_valueLogic_preflight _ _ _ _ _ _ Hpre).
    pose proof (writeAndVerify_run params executor plistBuddyKeyPath commandValue) as Heq.
    cbv zeta in Heq. unfold run in Heq. rewrite Heq. clear Heq.
    rewrite Hset.
    destruct Hwritten as [[Hok ->]|(Hfail & Hcreate & Hclass & (addResult & Hadd & Hadd_ok) & ->)].
    + rewrite Hok, verifyAndReport_run.
      by rewrite Hverify, Hverify_fail.
    + rewrite Hfail.
      pose proof (handleSetFailure_run params executor plistBuddyKeyPath commandValue
                    setResult [theRead; theSet]) as Heq.
      cbv zeta in Heq. rewrite Heq. clear Heq.
      unfold fallbackAllowed. rewrite Hcreate. cbn [andb].
      destruct (classifySetFailure _); [|done|]; cbn [isNonMissing negb];
        rewrite Hadd, Hadd_ok, verifyAndReport_run;
        change ([theRead; theSet] ++ [theAdd]) with [theRead; theSet; theAdd];
        by rewrite Hverify, Hverify_fail.
  - apply (createErrorResponse_marker _ (lit "verify_error:")
             (lit " " ++ getCommandErrorText (Some (output verifyResult))
                           (error verifyResult))).
  - done.
Qed.

End ProtocolClaims.

Section ValueClaim.

Context `{Responses}.

Variable params : SetPlistValueParams.
Variable executor : CommandExecutor.
Variable fileSystemExecutor : FileSystemExecutor.

(** Every run of the command protocol opens with the read and the Set. *)
Lemma writeAndVerify_opening plistBuddyKeyPath commandValue :
  exists rest,
    snd (run (writeAndVerify params plistBuddyKeyPath commandValue executor))
    = readCall params plistBuddyKeyPath
        :: setCall params plistBuddyKeyPath commandValue :: rest.
Proof.
  pose proof (writeAndVerify_run params executor plistBuddyKeyPath commandValue) as Heq.
  cbv zeta in Heq. rewrite Heq. clear Heq.
  destruct (answerTo executor _ (setCall _ _ _)) as [setResult|e]; [|by eexists].
  destruct (success setResult).
  { rewrite verifyAndReport_run. by eexists. }
  pose proof (handleSetFailure_run params executor plistBuddyKeyPath commandValue
                setResult
                [readCall params plistBuddyKeyPath;
                 setCall params plistBuddyKeyPath commandValue]) as Heq.
  cbv zeta in Heq. rewrite Heq. clear Heq.
  destruct (fallbackAllowed params _); [|by eexists].
  destruct (answerTo executor _ (addCall _ _ _)) as [addResult|e]; [|by eexists].
  destruct (success addResult); [|by eexists].
  rewrite verifyAndReport_run. by eexists.
Qed.

(** C9.  A value that fits the grammar of its type is accepted and sent as
    follows: a string value between double quotes, with backslash, double
    quote, line feed, carriage return and tab replaced by their backslash
    escapes; a bool value trimmed and lower-cased (so [true] or [false]); an
    int or real value trimmed; the last three unquoted.  Every string value
    fits, and a value that does not fit is refused and nothing is sent.  What
    is sent is the operand of the Set command: whenever the file exists and
    the key path is accepted, the second command of the run is
    [Set <key path> <that value>], after the read. *)
Theorem command_value_quoting :
  let v := value params in
  let t := valueType params in
  let sent :=
    match t with
    | VString => [DQUOTE] ++ flat_map escapedChar v ++ [DQUOTE]
    | VBool => toLowerCase (trim v)
    | VInt | VReal => trim v
    end in
  let normalized := match t with VString => v | _ => sent end in
  (fitsGrammar v t -> normalizeValueForType v t = ValueOk normalized sent)
  /\ (~ fitsGrammar v t -> exists e, normalizeValueForType v t = ValueError e)
  /\ (t = VString -> fitsGrammar v t)
  /\ (t = VBool -> fitsGrammar v t -> sent = lit "true" \/ sent = lit "false")
  /\ (forall segments plistBuddyKeyPath,
        existsSync fileSystemExecutor (plistPath params) = Returned true ->
        normalizeKeyPathForPlistBuddy (keyPath params)
        = KeyPathOk segments plistBuddyKeyPath ->
        fitsGrammar v t ->
        exists rest,
          snd (run (set_plist_valueLogic params executor fileSystemExecutor))
          = readCall params plistBuddyKeyPath
              :: setCall params plistBuddyKeyPath sent :: rest
          /\ setCall params plistBuddyKeyPath sent
             = CallExecutor
                 [plistBuddy; lit "-c";
                  lit "Set " ++ plistBuddyKeyPath ++ lit " " ++ sent; plistPath params]
                 (lit "Set plist value"))
  /\ escapedChar BACKSLASH = [BACKSLASH; BACKSLASH]
  /\ escapedChar DQUOTE = [BACKSLASH; DQUOTE]
  /\ escapedChar LF = BACKSLASH :: lit "n"
  /\ escapedChar CR = BACKSLASH :: lit "r"
  /\ escapedChar TAB = BACKSLASH :: lit "t"
  /\ (forall c, c <> BACKSLASH -> c <> DQUOTE -> c <> LF -> c <> CR -> c <> TAB ->
                escapedChar c = [c]).
Proof.
  intros v t sent normalized.
  assert (Haccepted : fitsGrammar v t ->
                      normalizeValueForType v t = ValueOk normalized sent).
  { intros Hfits. unfold normalizeValueForType.
    rewrite (proj2 (validateValueForType_grammar v t) Hfits).
    subst normalized sent. destruct t; try reflexivity.
    by rewrite quotePlistBuddyString_quoted. }
  split; [exact Haccepted|]. split; [|split; [|split; [|split]]].
  - intros Hunfit. unfold normalizeValueForType.
    destruct (validateValueForType v t) as [e|] eqn:Hvalid; [by exists e|].
    by apply validateValueForType_grammar in Hvalid.
  - by intros ->.
  - intros Ht Hfits. subst sent. rewrite Ht in *. exact Hfits.
  - intros segments plistBuddyKeyPath Hfile Hkey Hfits.
    assert (Hpre : preflightPasses params fileSystemExecutor plistBuddyKeyPath sent).
    { split; [done|]. split; [by exists segments|]. exists normalized.
      by apply Haccepted. }
    destruct (writeAndVerify_opening plistBuddyKeyPath sent) as [rest Hrest].
    exists rest. split; [|reflexivity].
    unfold run in *.
    by rewrite (set_plist_valueLogic_preflight _ _ _ _ _ _ Hpre).
  - repeat (split; [reflexivity|]).
    intros c H1 H2 H3 H4 H5. unfold escapedChar.
    by rewrite !(proj2 (N.eqb_neq _ _)).
Qed.

End ValueClaim.

(** ** The doctor probe adapters *)

Section DoctorFacts.

Variable imports : DoctorImports.
Variable executor : CommandExecutor.

(** A [try] whose handler returns a value returns a value. *)
Lemma tryCatch_returns {A} (c : Async A) (handler : Thrown -> A) (log : list Call) :
  exists a log', tryCatch c (fun e => ret (handler e)) log = (Returned a, log').
Proof.
  unfold tryCatch, ret. destruct (c log) as [[a|e] log']; eauto.
Qed.

Lemma probeVersion_returns command logPrefix (log : list Call) :
  exists v log', probeVersion executor command logPrefix log = (Returned v, log').
Proof. apply (tryCatch_returns _ (fun _ => None)). Qed.

Lemma checkBinaryAvailability_returns binary (log : list Call) :
  exists r log',
    checkBinaryAvailability imports executor binary log = (Returned r, log').
Proof.
  unfold checkBinaryAvailability.
  destruct (streqb binary (lit "axe")).
  { unfold bind, callResolveAxeBinary.
    destruct (resolveAxeBinary imports log) as [axe|]; [|unfold ret; eauto].
    destruct (probeVersion_returns [path axe; lit "--version"] (lit "Get AXe Version")
                (log ++ [CallResolveAxeBinary])) as (v & log' & ->).
    unfold ret. eauto. }
  destruct (streqb binary (lit "xcodemake")).
  { unfold bind, callIsXcodemakeBinaryAvailable, ret. eauto. }
  unfold bind at 1.
  destruct (tryCatch_returns
              (which <- callExecutor executor [lit "which"; binary]
                          (lit "Check Binary Availability") ;;
               ret (success which))
              (fun _ => false) log) as (found & log' & ->).
  destruct found; cbn [negb]; [|unfold ret; eauto].
  unfold bind. destruct (streqb binary (lit "mise")).
  - destruct (probeVersion_returns (splitOn SPACE (lit "mise --version"))
                (lit "Get Binary Version") log') as (v & log'' & ->).
    unfold ret. eauto.
  - unfold ret. eauto.
Qed.

Lemma getXcodeInfo_returns (log : list Call) :
  exists r log', getXcodeInfo executor log = (Returned r, log').
Proof. apply (tryCatch_returns _ (fun e => XcodeInfoError (thrownText e))). Qed.

Lemma getManifestToolInfo_returns (log : list Call) :
  exists r log', getManifestToolInfo imports log = (Returned r, log').
Proof.
  apply (tryCatch_returns _
           (fun e => ManifestInfoError
                       (lit "Failed to load manifest: "
                          ++ match e with
                             | ThrownError message => message
                             | ThrownValue _ => lit "Unknown error"
                             end))).
Qed.

(** C1.  Asked about [xcodemake], the binary checker makes one external call,
    the side-effect-free [isXcodemakeBinaryAvailable]: no command goes to the
    executor and the install-capable check is not called.  It reports what
    that call answered, and [{ available: false }] with no version when the
    binary is absent. *)
Theorem xcodemake_probe_is_read_only (log log' : list Call)
    (result : Outcome BinaryAvailability) :
  checkBinaryAvailability imports executor (lit "xcodemake") log = (result, log') ->
  log' = log ++ [CallIsXcodemakeBinaryAvailable]
  /\ executorCommands log' = executorCommands log
  /\ (In CallIsXcodemakeAvailable log' -> In CallIsXcodemakeAvailable log)
  /\ (exists isAvailable,
        isAvailable = isXcodemakeBinaryAvailable imports log
        /\ result = Returned {| available := isAvailable;
                                version := if isAvailable then Some versionUnknown
                                           else None |})
  /\ (isXcodemakeBinaryAvailable imports log = false ->
      result = Returned {| available := false; version := None |}).
Proof.
  intros Hrun.
  assert (Heq : checkBinaryAvailability imports executor (lit "xcodemake") log
                = (Returned {| available := isXcodemakeBinaryAvailable imports log;
                               version := if isXcodemakeBinaryAvailable imports log
                                          then Some versionUnknown else None |},
                   log ++ [CallIsXcodemakeBinaryAvailable])) by reflexivity.
  rewrite Heq in Hrun. apply run_result in Hrun as [-> ->].
  split; [done|]. split; [|split; [|split]].
  - unfold executorCommands. rewrite flat_map_app. simpl. by rewrite app_nil_r.
  - intros [Hin|Hin]%in_app_iff; [done|]. simpl in Hin. by destruct Hin.
  - by eexists.
  - by intros ->.
Qed.

End DoctorFacts.

Section EnvironmentClaim.

Variable imports : DoctorImports.

Lemma relevantVars_lookup (env : gmap (list N) (list N)) (vars : list (list N))
    (acc : gmap (list N) (option (list N))) (key : list N) :
  fold_left (fun envVars varName => <[varName := env !! varName]> envVars) vars acc
    !! key
  = if decide (key ∈ vars) then Some (env !! key) else acc !! key.
Proof.
  revert acc. induction vars as [|v vars IH]; intros acc; cbn [fold_left].
  - by rewrite decide_False by apply not_elem_of_nil.
  - rewrite IH. destruct (decide (key ∈ vars)) as [Hin|Hout].
    + by rewrite decide_True by (apply elem_of_cons; by right).
    + destruct (decide (key = v)) as [->|Hne].
      * rewrite lookup_insert_eq. by rewrite decide_True by (apply elem_of_cons; by left).
      * rewrite lookup_insert_ne by done.
        rewrite decide_False; [done|]. by intros [?|?]%elem_of_cons.
Qed.

(** The second loop, run over any part [m] of the environment [env]. *)
Lemma prefixScan_lookup (env m : gmap (list N) (list N)) (key : list N) :
  map_fold
    (fun k (_ : list N) (envVars : gmap (list N) (option (list N))) =>
       if startsWith k (lit "XCODEBUILDMCP_")
       then <[k := env !! k]> envVars
       else envVars)
    (fold_left (fun envVars varName => <[varName := env !! varName]> envVars)
       relevantVars ∅)
    m !! key
  = if decide (key ∈ relevantVars
               \/ (is_Some (m !! key)
                   /\ startsWith key (lit "XCODEBUILDMCP_") = true))
    then Some (env !! key) else None.
Proof.
  revert m. apply (map_fold_weak_ind
    (fun (r : gmap (list N) (option (list N))) (part : gmap (list N) (list N)) =>
       r !! key
       = if decide (key ∈ relevantVars
                    \/ (is_Some (part !! key)
                        /\ startsWith key (lit "XCODEBUILDMCP_") = true))
         then Some (env !! key) else None)).
  - rewrite relevantVars_lookup, lookup_empty.
    destruct (decide (key ∈ relevantVars)) as [Hin|Hout].
    + by rewrite decide_True by (by left).
    + rewrite decide_False; [done|].
      intros [?|[[? Hsome] _]]; [done|]. by rewrite lookup_empty in Hsome.
  - intros i x m r Hfresh IH.
    destruct (decide (key = i)) as [->|Hne].
    + rewrite lookup_insert_eq.
      destruct (startsWith i (lit "XCODEBUILDMCP_")) eqn:Hprefix.
      * rewrite lookup_insert_eq. by rewrite decide_True by (right; eauto).
      * rewrite IH, Hfresh.
        destruct (decide (i ∈ relevantVars)) as [Hin|Hout].
        -- by rewrite !decide_True by (by left).
        -- rewrite !decide_False; [done| |]; intros [?|[[? ?] ?]]; done.
    + rewrite (lookup_insert_ne m) by done.
      destruct (startsWith i (lit "XCODEBUILDMCP_")); [|done].
      by rewrite lookup_insert_ne.
Qed.

(** C8.  The keys of the environment snapshot are the twelve enumerated names
    together with every variable of the process environment whose name starts
    with [XCODEBUILDMCP_], and nothing else; each key is mapped to the value
    the process environment has for it, as it is. *)
Theorem environment_snapshot (key : list N) :
  let env := process_env imports in
  let shown :=
    key ∈ relevantVars
    \/ (is_Some (env !! key) /\ startsWith key (lit "XCODEBUILDMCP_") = true) in
  relevantVars
  = [ lit "INCREMENTAL_BUILDS_ENABLED"; lit "PATH"; lit "DEVELOPER_DIR"; lit "HOME";
      lit "USER"; lit "TMPDIR"; lit "NODE_ENV"; lit "SENTRY_DISABLED"; lit "AXE_PATH";
      lit "XBMCP_LAUNCH_JSON_WAIT_MS"; lit "XCODEBUILDMCP_DEBUGGER_BACKEND";
      lit "XCODEBUILDMCP_UI_DEBUGGER_GUARD_MODE" ]
  /\ (key ∈ dom (getEnvironmentVariables imports) <-> shown)
  /\ (shown -> getEnvironmentVariables imports !! key = Some (env !! key)).
Proof.
  intros env shown.
  pose proof (prefixScan_lookup env env key) as Hlookup.
  change (getEnvironmentVariables imports !! key
          = if decide shown then Some (env !! key) else None) in Hlookup.
  split; [reflexivity|]. split.
  - rewrite elem_of_dom, Hlookup.
    destruct (decide shown); [by split; eauto|].
    split; [by intros [? ?]|done].
  - intros Hshown. rewrite Hlookup. by rewrite decide_True.
Qed.

End EnvironmentClaim.

(** ** Failures at the boundary *)

Section BoundaryClaim.

Lemma answerTo_resolves (executor : CommandExecutor) (log : list Call)
    (plistCommand path logPrefix : list N) :
  (forall (log : list Call) command logPrefix,
      log <> [] -> exists r, executor log command logPrefix = Returned r) ->
  log <> [] ->
  exists r, answerTo executor log (plistCall plistCommand path logPrefix) = Returned r.
Proof. intros Hresolves Hlog. by apply Hresolves. Qed.

Lemma verifyAndReport_returns `{Responses} params (executor : CommandExecutor)
    plistBuddyKeyPath previousValue (log : list Call) :
  (forall (log : list Call) command logPrefix,
      log <> [] -> exists r, executor log command logPrefix = Returned r) ->
  log <> [] ->
  exists response log',
    verifyAndReport params plistBuddyKeyPath executor previousValue log
    = (Returned response, log').
Proof.
  intros Hresolves Hlog. rewrite verifyAndReport_run.
  destruct (answerTo_resolves executor log (printCommand plistBuddyKeyPath)
              (plistPath params) (lit "Verify plist value") Hresolves Hlog)
    as [verifyResult Hverify].
  unfold verifyCall. rewrite Hverify. eauto.
Qed.

(** C3, as the code has it.  The doctor probe adapters return a value whatever
    the executor does, also when it rejects and when the manifest loader
    throws.  The plist tool returns a response whenever [existsSync] returns
    and the executor resolves every call after the initial read; a rejection
    of the initial read is absorbed. *)
Theorem failures_stay_inside :
  (forall imports executor binary (log : list Call),
      exists r log',
        checkBinaryAvailability imports executor binary log = (Returned r, log'))
  /\ (forall executor (log : list Call),
        exists r log', getXcodeInfo executor log = (Returned r, log'))
  /\ (forall imports (log : list Call),
        exists r log', getManifestToolInfo imports log = (Returned r, log'))
  /\ (forall (R : Responses) params (executor : CommandExecutor) fileSystemExecutor
             fileExists,
        existsSync fileSystemExecutor (plistPath params) = Returned fileExists ->
        (forall (log : list Call) command logPrefix,
            log <> [] -> exists r, executor log command logPrefix = Returned r) ->
        exists response log,
          run (set_plist_valueLogic params executor fileSystemExecutor)
          = (Returned response, log)).
Proof.
  split; [intros; apply checkBinaryAvailability_returns|].
  split; [intros; apply getXcodeInfo_returns|].
  split; [intros; apply getManifestToolInfo_returns|].
  intros R params executor fileSystemExecutor fileExists Hfile Hresolves.
  destruct fileExists.
  2:{ destruct (preflight_stops params executor fileSystemExecutor false)
        as (response & Hrun & _); eauto. }
  destruct (parseKeyPathSegments (keyPath params)) as [segments|e] eqn:Hkey.
  2:{ destruct (preflight_stops params executor fileSystemExecutor true)
        as (response & Hrun & _); eauto. }
  destruct (validateValueForType (value params) (valueType params)) as [e|] eqn:Hvalue.
  { destruct (preflight_stops params executor fileSystemExecutor true)
      as (response & Hrun & _); eauto. }
  assert (Hpre : exists plistBuddyKeyPath commandValue,
             preflightPasses params fileSystemExecutor plistBuddyKeyPath commandValue).
  { unfold preflightPasses, normalizeKeyPathForPlistBuddy, normalizeValueForType.
    rewrite Hkey, Hvalue. destruct (valueType params); eauto 10. }
  destruct Hpre as (plistBuddyKeyPath & commandValue & Hpre).
  unfold run. rewrite (set_plist_valueLogic_preflight _ _ _ _ _ _ Hpre).
  pose proof (writeAndVerify_run params executor plistBuddyKeyPath commandValue) as Heq.
  cbv zeta in Heq. unfold run in Heq. rewrite Heq. clear Heq.
  destruct (answerTo_resolves executor [readCall params plistBuddyKeyPath]
              (setCommand plistBuddyKeyPath commandValue) (plistPath params)
              (lit "Set plist value") Hresolves) as [setResult Hset]; [done|].
  unfold setCall. rewrite Hset.
  destruct (success setResult); [by apply verifyAndReport_returns|].
  pose proof (handleSetFailure_run params executor plistBuddyKeyPath commandValue
                setResult
                [readCall params plistBuddyKeyPath;
                 plistCall (setCommand plistBuddyKeyPath commandValue)
                   (plistPath params) (lit "Set plist value")]) as Heq.
  cbv zeta in Heq. rewrite Heq. clear Heq.
  destruct (fallbackAllowed params _); [|eauto].
  destruct (answerTo_resolves executor
              [readCall params plistBuddyKeyPath;
               plistCall (setCommand plistBuddyKeyPath commandValue)
                 (plistPath params) (lit "Set plist value")]
              (addCommand plistBuddyKeyPath (valueType params) commandValue)
              (plistPath params) (lit "Add plist value") Hresolves)
    as [addResult Hadd]; [done|].
  unfold addCall. rewrite Hadd.
  destruct (success addResult); [|eauto].
  apply verifyAndReport_returns; [done|discriminate].
Qed.

Lemma failures_stay_inside_witness :
  exists response log,
    run (set_plist_valueLogic displayNameParams lateExecutor (fileSystemWith true))
    = (Returned response, log).
Proof.
  destruct failures_stay_inside as (_ & _ & _ & Hplist).
  apply (Hplist plainResponses displayNameParams lateExecutor (fileSystemWith true) true).
  - reflexivity.
  - intros [|c log] command logPrefix Hlog; [done|]. by eexists.
Defined.

(** C3, as the claim has it, fails: when the executor rejects, the rejection
    of the Set call leaves [set_plist_valueLogic] as an exception, after the
    read and the Set have been issued. *)
Lemma set_plist_valueLogic_can_throw :
  run (set_plist_valueLogic displayNameParams rejectingExecutor (fileSystemWith true))
  = (Threw (ThrownError (lit "spawn /usr/libexec/PlistBuddy ENOENT")),
     [readCall displayNameParams displayNameKey;
      setCall displayNameParams displayNameKey displayNameValue])
  /\ ~ (exists response log,
          run (set_plist_valueLogic displayNameParams rejectingExecutor
                 (fileSystemWith true))
          = (Returned response, log)).
Proof.
  assert (Hrun :
    run (set_plist_valueLogic displayNameParams rejectingExecutor (fileSystemWith true))
    = (Threw (ThrownError (lit "spawn /usr/libexec/PlistBuddy ENOENT")),
       [readCall displayNameParams displayNameKey;
        setCall displayNameParams displayNameKey displayNameValue]))
    by (vm_compute; reflexivity).
  split; [exact Hrun|].
  intros (response & log & Hreturned). rewrite Hrun in Hreturned. discriminate.
Qed.

End BoundaryClaim.

(** ** The claims at the examples of the specification and of the tests *)

Lemma xcodemake_probe_is_read_only_witness :
  checkBinaryAvailability bareImports rejectingExecutor (lit "xcodemake") []
  = (Returned {| available := false; version := None |},
     [CallIsXcodemakeBinaryAvailable]).
Proof.
  destruct (checkBinaryAvailability bareImports rejectingExecutor (lit "xcodemake") [])
    as [result log'] eqn:Hrun.
  destruct (xcodemake_probe_is_read_only bareImports rejectingExecutor [] log' result Hrun)
    as (-> & _ & _ & _ & Habsent).
  rewrite Habsent; reflexivity.
Defined.

Lemma add_fallback_policy_witness :
  run (set_plist_valueLogic countParams typeMismatchMock (fileSystemWith true))
  = (Returned (createErrorResponse (lit "Failed to set plist value")
                 (lit "set_error: Type mismatch while setting value")),
     [readCall countParams (lit ":Count"); setCall countParams (lit ":Count") (lit "13")]).
Proof.
  destruct (run (set_plist_valueLogic countParams typeMismatchMock (fileSystemWith true)))
    as [result log] eqn:Hrun.
  destruct (add_fallback_policy countParams typeMismatchMock (fileSystemWith true)
              (lit ":Count") (lit "13")
              (mockResponse false [] (Some (lit "Type mismatch while setting value")))
              result log) as (_ & Hstop & _).
  - split; [reflexivity|]. split; eexists; vm_compute; reflexivity.
  - vm_compute. reflexivity.
  - reflexivity.
  - exact Hrun.
  - destruct Hstop as (-> & -> & _); [right; vm_compute; reflexivity|].
    reflexivity.
Defined.


Lemma preflight_runs_no_command_witness :
  exists response,
    run (set_plist_valueLogic opacityParams rejectingExecutor (fileSystemWith true))
    = (Returned response, [])
    /\ isError response = true
    /\ executorCommands (snd (run (set_plist_valueLogic opacityParams rejectingExecutor
                                     (fileSystemWith true)))) = [].
Proof.
  apply (preflight_runs_no_command opacityParams rejectingExecutor
           (fileSystemWith true) true).
  - reflexivity.
  - right. right. intros [_ Hfinite]. vm_compute in Hfinite. discriminate.
Defined.

Lemma unverified_write_is_reported_witness :
  run (set_plist_valueLogic displayNameParams unreadableMock (fileSystemWith true))
  = (Returned (createErrorResponse (lit "Failed to verify plist write")
                 (lit "verify_error: File is locked")),
     [readCall displayNameParams displayNameKey;
      setCall displayNameParams displayNameKey displayNameValue;
      verifyCall displayNameParams displayNameKey]).
Proof.
  apply (unverified_write_is_reported displayNameParams unreadableMock
           (fileSystemWith true) displayNameKey displayNameValue
           (mockResponse true [] None)
           (mockResponse false [] (Some (lit "File is locked")))
           [readCall displayNameParams displayNameKey;
            setCall displayNameParams displayNameKey displayNameValue]).
  - split; [reflexivity|]. split; eexists; vm_compute; reflexivity.
  - vm_compute. reflexivity.
  - left. split; reflexivity.
  - vm_compute. reflexivity.
  - reflexivity.
Defined.

Lemma environment_snapshot_witness :
  getEnvironmentVariables bareImports !! lit "XCODEBUILDMCP_SENTRY_DSN"
  = Some (Some (lit "dsn")).
Proof.
  destruct (environment_snapshot bareImports (lit "XCODEBUILDMCP_SENTRY_DSN"))
    as (_ & _ & Hshown).
  rewrite Hshown.
  - vm_compute. reflexivity.
  - right. split; [|reflexivity]. exists (lit "dsn"). vm_compute. reflexivity.
Defined.

Lemma command_value_quoting_witness :
  exists rest,
    snd (run (set_plist_valueLogic arbitraryLoadsParams fallbackMock (fileSystemWith true)))
    = readCall arbitraryLoadsParams arbitraryLoadsKey
        :: setCall arbitraryLoadsParams arbitraryLoadsKey (lit "true") :: rest
    /\ setCall arbitraryLoadsParams arbitraryLoadsKey (lit "true")
       = CallExecutor
           [plistBuddy; lit "-c";
            lit "Set :NSAppTransportSecurity:NSAllowsArbitraryLoads true";
            lit "/tmp/Info.plist"]
           (lit "Set plist value").
Proof.
  destruct (command_value_quoting arbitraryLoadsParams fallbackMock (fileSystemWith true))
    as (_ & _ & _ & _ & Hsent & _).
  apply (Hsent [lit "NSAppTransportSecurity"; lit "NSAllowsArbitraryLoads"]
           arbitraryLoadsKey).
  - reflexivity.
  - reflexivity.
  - left. reflexivity.
Defined.


(** The fallback scenario of the specification: the key is absent, the read
    and the Set fail as missing, Add succeeds and the verification reads
    [true] back. *)
Example fallback_scenario :
  run (set_plist_valueLogic arbitraryLoadsParams fallbackMock (fileSystemWith true))
  = (Returned
       {| content :=
            [{| type_ := lit "text";
                text := lit "Set plist key 'NSAppTransportSecurity:NSAllowsArbitraryLoads' in '/tmp/Info.plist' to 'true'." |}];
          isError := false |},
     [readCall arbitraryLoadsParams
        (lit ":NSAppTransportSecurity:NSAllowsArbitraryLoads");
      setCall arbitraryLoadsParams
        (lit ":NSAppTransportSecurity:NSAllowsArbitraryLoads") (lit "true");
      addCall arbitraryLoadsParams
        (lit ":NSAppTransportSecurity:NSAllowsArbitraryLoads") (lit "true");
      verifyCall arbitraryLoadsParams
        (lit ":NSAppTransportSecurity:NSAllowsArbitraryLoads")]).
Proof. vm_compute. reflexivity. Qed.

(** The literal grammars at their edges. *)
Example real_grammar_edges :
  map (fun s => validateValueForType (lit s) VReal)
    ["1e308"; "1.7976931348623158e308"; ".5"; "5."; "+.5e-3"; " 1.0 "]%string
  = [None; None; None; None; None; None]
  /\ map (fun s => validateValueForType (lit s) VReal)
       ["1e309"; "1.7976931348623159e308"; "Infinity"; "."; "1e"; "1.0.0"]%string
     = repeat (Some realError) 6.
Proof. split; vm_compute; reflexivity. Qed.

Example int_grammar_edges :
  map (fun s => validateValueForType (lit s) VInt) ["1"; "+1"; "-42"; " 42 "]%string
  = [None; None; None; None]
  /\ map (fun s => validateValueForType (lit s) VInt) ["-"; ""; "1.2"; "4 2"]%string
     = repeat (Some intError) 4.
Proof. split; vm_compute; reflexivity. Qed.

(** The string of the escaping test. *)
Example quoting_test_string :
  quotePlistBuddyString
    (lit "Line1" ++ [LF] ++ lit "Line2" ++ [TAB; DQUOTE] ++ lit "Quote" ++ [DQUOTE]
       ++ lit "\Slash")
  = [DQUOTE] ++ lit "Line1\nLine2\t\" ++ [DQUOTE] ++ lit "Quote\" ++ [DQUOTE]
      ++ lit "\\Slash" ++ [DQUOTE].
Proof. vm_compute. reflexivity. Qed.

(** The error text of a command: the trimmed error, else the trimmed output,
    else a fixed text. *)
Example command_error_texts :
  getCommandErrorText (Some []) (Some (lit " Entry Does Not Exist ")) = lit "Entry Does Not Exist"
  /\ getCommandErrorText (Some (lit "from output ")) (Some (lit "  ")) = lit "from output"
  /\ getCommandErrorText (Some (lit "from output")) None = lit "from output"
  /\ getCommandErrorText (Some []) None = lit "Unknown error".
Proof. repeat split; vm_compute; reflexivity. Qed.

(** * Further properties of the code *)

(** ** Key paths: escaping and parsing *)

Section KeyPathRoundTrip.

Implicit Types s seg cur rest : list N.
Implicit Types segs : list (list N).

Lemma trimStart_id s :
  (forall c t, s = c :: t -> isWhiteSpace c = false) -> trimStart s = s.
Proof.
  destruct s as [|c t]; [done|]. intros Hhead. simpl.
  by rewrite (Hhead c t eq_refl).
Qed.

Lemma trimEnd_id s :
  (forall t c, s = t ++ [c] -> isWhiteSpace c = false) -> trimEnd s = s.
Proof.
  intros Hlast. unfold trimEnd.
  rewrite trimStart_id; [apply rev_involutive|].
  intros c t Hrev. apply (Hlast (rev t)).
  rewrite <- (rev_involutive s), Hrev. reflexivity.
Qed.

(** A string without white space at its ends is left alone by [trim]. *)
Lemma trimmed_trim s : trimmed s -> trim s = s.
Proof.
  intros [Hhead Hlast]. unfold trim.
  rewrite trimStart_id by done. by apply trimEnd_id.
Qed.

Lemma trim_idempotent s : trim (trim s) = trim s.
Proof. apply trimmed_trim, trim_trimmed. Qed.

Lemma escapeKeySegment_cons c seg :
  escapeKeySegmentForPlistBuddy (c :: seg)
  = (if c =? BACKSLASH then [BACKSLASH; BACKSLASH]
     else if c =? COLON then [BACKSLASH; COLON]
     else [c]) ++ escapeKeySegmentForPlistBuddy seg.
Proof.
  unfold escapeKeySegmentForPlistBuddy, replaceAllChar. cbn [flat_map].
  rewrite flat_map_app. f_equal.
  destruct (c =? BACKSLASH) eqn:Hb; [reflexivity|].
  cbn [flat_map]. rewrite app_nil_r. reflexivity.
Qed.

(** The parser reads an escaped segment back into the segment. *)
Lemma parseKeyPathLoop_escaped seg : forall rest segs cur,
  parseKeyPathLoop (escapeKeySegmentForPlistBuddy seg ++ rest) segs cur false
  = parseKeyPathLoop rest segs (cur ++ seg) false.
Proof.
  induction seg as [|c seg IH]; intros rest segs cur.
  - by rewrite app_nil_r.
  - rewrite escapeKeySegment_cons, <- app_assoc.
    destruct (c =? BACKSLASH) eqn:Hb.
    + apply N.eqb_eq in Hb as ->. cbn [app parseKeyPathLoop].
      change (BACKSLASH =? BACKSLASH) with true. cbv iota.
      rewrite IH. by rewrite <- app_assoc.
    + destruct (c =? COLON) eqn:Hc.
      * apply N.eqb_eq in Hc as ->. cbn [app parseKeyPathLoop].
        change (BACKSLASH =? BACKSLASH) with true. cbv iota.
        rewrite IH. by rewrite <- app_assoc.
      * cbn [app parseKeyPathLoop]. rewrite Hb, Hc.
        rewrite IH. by rewrite <- app_assoc.
Qed.

Lemma parseKeyPathLoop_colon rest segs cur :
  parseKeyPathLoop (COLON :: rest) segs cur false
  = if isEmpty (trim cur) then ParseError emptySegmentError
    else parseKeyPathLoop rest (segs ++ [trim cur]) [] false.
Proof. reflexivity. Qed.

Lemma parseKeyPathLoop_joined segs : forall acc,
  segs <> [] ->
  Forall (fun s => s <> [] /\ trimmed s) segs ->
  parseKeyPathLoop (join [COLON] (map escapeKeySegmentForPlistBuddy segs)) acc [] false
  = ParseOk (acc ++ segs).
Proof.
  induction segs as [|seg segs IH]; intros acc Hne Hall; [done|].
  apply Forall_cons in Hall as [[Hseg Htrim] Hall].
  destruct segs as [|seg' segs].
  - cbn [map join].
    rewrite <- (app_nil_r (escapeKeySegmentForPlistBuddy seg)).
    rewrite parseKeyPathLoop_escaped. cbn [app parseKeyPathLoop].
    rewrite (trimmed_trim _ Htrim).
    by rewrite (proj2 (isEmpty_false seg) Hseg).
  - change (join [COLON] (map escapeKeySegmentForPlistBuddy (seg :: seg' :: segs)))
      with (escapeKeySegmentForPlistBuddy seg
              ++ [COLON] ++ join [COLON] (map escapeKeySegmentForPlistBuddy (seg' :: segs))).
    rewrite parseKeyPathLoop_escaped.
    cbn [app]. rewrite parseKeyPathLoop_colon.
    rewrite (trimmed_trim _ Htrim), (proj2 (isEmpty_false seg) Hseg).
    rewrite IH by done. by rewrite <- app_assoc.
Qed.

Lemma trim_fixed_trimmed s : trim s = s -> trimmed s.
Proof. intros <-. apply trim_trimmed. Qed.

Lemma rawSegmentsFrom_nonempty chars : forall cur esc,
  rawSegmentsFrom chars cur esc <> [].
Proof.
  induction chars as [|c chars IH]; intros cur esc; simpl; [done|].
  destruct esc; [apply IH|].
  destruct (c =? BACKSLASH); [apply IH|].
  destruct (c =? COLON); [done|apply IH].
Qed.

(** What the parser accepts: at least one segment, each non-empty and
    trimmed. *)
Lemma parseKeyPathSegments_shape keyPath segs :
  parseKeyPathSegments keyPath = ParseOk segs ->
  segs <> [] /\ Forall (fun s => s <> [] /\ trimmed s) segs.
Proof.
  intros (-> & Hall & _)%parseKeyPathSegments_ok. split.
  - intros Hnil%map_eq_nil. by apply rawSegmentsFrom_nonempty in Hnil.
  - apply Forall_forall. intros s Hs%list_elem_of_In.
    apply in_map_iff in Hs as [raw [<- Hin]].
    split; [|apply trim_trimmed].
    rewrite forallb_forall in Hall. apply Hall in Hin.
    by apply negb_true_iff, isEmpty_false in Hin.
Qed.

Lemma escaped_segments_parse_back_lemma segs :
  segs <> [] ->
  Forall (fun s => s <> [] /\ trimmed s) segs ->
  parseKeyPathSegments (join [COLON] (map escapeKeySegmentForPlistBuddy segs))
  = ParseOk segs.
Proof.
  intros Hne Hall. unfold parseKeyPathSegments.
  by rewrite parseKeyPathLoop_joined.
Qed.

(** X1.  Escaping then parsing is the identity on segments: for a non-empty
    list of non-empty, trimmed segments, the escaped segments joined by colons
    form a key path that parses to exactly these segments, whatever colons and
    backslashes they contain. *)
Theorem escaped_segments_parse_back segs :
  segs <> [] ->
  Forall (fun s => s <> [] /\ trimmed s) segs ->
  parseKeyPathSegments (join [COLON] (map escapeKeySegmentForPlistBuddy segs))
  = ParseOk segs.
Proof.
  intros Hne Hall. unfold parseKeyPathSegments.
  by rewrite parseKeyPathLoop_joined.
Qed.

Lemma escaped_segments_parse_back_witness :
  parseKeyPathSegments
    (join [COLON] (map escapeKeySegmentForPlistBuddy [lit "A:B"; lit "C\D"; lit "E F"]))
  = ParseOk [lit "A:B"; lit "C\D"; lit "E F"].
Proof.
  apply escaped_segments_parse_back; [discriminate|].
  repeat (apply Forall_cons; split;
          [split; [discriminate|by apply trim_fixed_trimmed]|]).
  apply Forall_nil_2.
Defined.

(** X2.  The key path handed to PlistBuddy is canonical: without its leading
    colon it is itself an accepted key path, with the same segments and the
    same PlistBuddy form; with the leading colon it is rejected. *)
Theorem plistBuddy_key_path_is_canonical keyPath segs plistBuddyKeyPath :
  normalizeKeyPathForPlistBuddy keyPath = KeyPathOk segs plistBuddyKeyPath ->
  exists body,
    plistBuddyKeyPath = COLON :: body
    /\ normalizeKeyPathForPlistBuddy body = KeyPathOk segs plistBuddyKeyPath
    /\ parseKeyPathSegments plistBuddyKeyPath = ParseError emptySegmentError.
Proof.
  unfold normalizeKeyPathForPlistBuddy.
  destruct (parseKeyPathSegments keyPath) as [parsed|e] eqn:Hp; [|discriminate].
  intros Heq. apply parseKeyPathSegments_shape in Hp as [Hne Hall].
  assert (parsed = segs) as -> by congruence.
  assert (plistBuddyKeyPath
          = COLON :: join [COLON] (map escapeKeySegmentForPlistBuddy segs)) as ->
    by congruence.
  eexists. split; [reflexivity|].
  by rewrite escaped_segments_parse_back_lemma.
Qed.

Lemma plistBuddy_key_path_is_canonical_witness :
  exists body,
    lit ":A\:B:C" = COLON :: body
    /\ normalizeKeyPathForPlistBuddy body = KeyPathOk [lit "A:B"; lit "C"] (lit ":A\:B:C")
    /\ parseKeyPathSegments (lit ":A\:B:C") = ParseError emptySegmentError.
Proof.
  apply (plistBuddy_key_path_is_canonical (lit " A\:B : C ")). reflexivity.
Defined.

End KeyPathRoundTrip.

(** ** Quoting of string values *)

Section QuotingFacts.

Implicit Types value : list N.

Lemma unescapeFrom_escaped value rest :
  unescapeFrom (flat_map escapedChar value ++ rest) false
  = value ++ unescapeFrom rest false.
Proof.
  induction value as [|c value IH]; [done|].
  cbn [flat_map]. rewrite <- app_assoc. unfold escapedChar at 1.
  destruct (c =? BACKSLASH) eqn:Hb.
  { apply N.eqb_eq in Hb as ->. cbn. by rewrite IH. }
  destruct (c =? DQUOTE) eqn:Hq.
  { apply N.eqb_eq in Hq as ->. cbn. by rewrite IH. }
  destruct (c =? LF) eqn:Hn.
  { apply N.eqb_eq in Hn as ->. cbn. by rewrite IH. }
  destruct (c =? CR) eqn:Hr.
  { apply N.eqb_eq in Hr as ->. cbn. by rewrite IH. }
  destruct (c =? TAB) eqn:Ht.
  { apply N.eqb_eq in Ht as ->. cbn. by rewrite IH. }
  cbn [app unescapeFrom]. rewrite Hb, IH. reflexivity.
Qed.

(** X3.  Quoting loses nothing: two string values with the same quoted form
    are the same value, so distinct values reach PlistBuddy as distinct
    arguments. *)
Theorem quotePlistBuddyString_injective value1 value2 :
  quotePlistBuddyString value1 = quotePlistBuddyString value2 ->
  value1 = value2.
Proof.
  rewrite !quotePlistBuddyString_quoted. unfold quoted.
  intros Heq. injection Heq as Heq.
  apply (f_equal (fun s => unescapeFrom s false)) in Heq.
  rewrite !unescapeFrom_escaped in Heq.
  by apply app_inv_tail in Heq.
Qed.

Lemma quotePlistBuddyString_injective_witness :
  lit "a\b" = lit "a\b".
Proof.
  apply quotePlistBuddyString_injective. reflexivity.
Defined.

Lemma escapedChar_plain c :
  Forall (fun e => e <> LF /\ e <> CR /\ e <> TAB) (escapedChar c).
Proof.
  unfold escapedChar.
  destruct (c =? BACKSLASH); [by repeat constructor|].
  destruct (c =? DQUOTE); [by repeat constructor|].
  destruct (c =? LF) eqn:Hn; [by repeat constructor|].
  destruct (c =? CR) eqn:Hr; [by repeat constructor|].
  destruct (c =? TAB) eqn:Ht; [by repeat constructor|].
  apply N.eqb_neq in Hn, Hr, Ht. by repeat constructor.
Qed.

(** X4.  A quoted string value is one line: it starts and ends with a double
    quote and holds no line feed, carriage return or tab, whatever the value
    contains. *)
Theorem quotePlistBuddyString_single_line value :
  (exists inner, quotePlistBuddyString value = [DQUOTE] ++ inner ++ [DQUOTE])
  /\ Forall (fun c => c <> LF /\ c <> CR /\ c <> TAB) (quotePlistBuddyString value).
Proof.
  rewrite quotePlistBuddyString_quoted. unfold quoted. split; [by eexists|].
  apply Forall_app. split; [by repeat constructor|].
  apply Forall_app. split; [|by repeat constructor].
  induction value as [|c value IH]; [constructor|].
  cbn [flat_map]. apply Forall_app. split; [apply escapedChar_plain|exact IH].
Qed.

End QuotingFacts.

(** ** Classification of a failed Set *)

Section ClassificationFacts.

Implicit Types s t needle text : list N.

Lemma startsWith_prefix s prefix :
  startsWith s prefix = true <-> exists post, s = prefix ++ post.
Proof.
  revert s. induction prefix as [|p prefix IH]; intros s; simpl.
  - split; [by exists s|done].
  - destruct s as [|c s]; [split; [done|by intros [? ?]]|].
    rewrite andb_true_iff, N.eqb_eq, IH. split.
    + intros [-> [post ->]]. by exists post.
    + intros [post [= -> ->]]. split; [done|by exists post].
Qed.

(** [includes] is occurrence as a contiguous run. *)
Lemma includes_occursIn s needle : includes s needle = true <-> occursIn needle s.
Proof.
  induction s as [|c s IH]; cbn [includes]; rewrite orb_true_iff, startsWith_prefix.
  - split.
    + intros [[post Hpost]|?]; [|done]. exists [], post. exact Hpost.
    + intros (pre & post & Heq). left.
      destruct pre; [by exists post|discriminate].
  - rewrite IH. split.
    + intros [[post Hpost]|(pre & post & ->)].
      * exists [], post. exact Hpost.
      * by exists (c :: pre), post.
    + intros ([|c' pre] & post & Heq).
      * left. by exists post.
      * right. injection Heq as -> ->. by exists pre, post.
Qed.

Lemma includes_any text (phrases : list (list N)) :
  existsb (includes text) phrases = true <-> anyOccurs phrases text.
Proof.
  unfold anyOccurs. rewrite existsb_exists.
  split; intros (phrase & Hin & Hocc); exists phrase; split; try done;
    by apply includes_occursIn.
Qed.

Lemma classifySetFailure_existsb text :
  classifySetFailure text
  = if existsb (includes (toLowerCase text)) missingKeyPhrases then MissingKey
    else if existsb (includes (toLowerCase text)) nonMissingPhrases then NonMissing
    else UnknownFailure.
Proof.
  unfold classifySetFailure, missingKeyPhrases, nonMissingPhrases.
  cbn [existsb]. by rewrite !orb_false_r, !orb_assoc.
Qed.

(** X5.  The classification of a failure text depends only on which phrases
    occur in its lower-cased form, wherever they stand: it is missing-key as
    soon as a missing-key phrase occurs, also when a non-missing phrase occurs
    as well; non-missing when only non-missing phrases occur; unknown when
    none does. *)
Theorem classifySetFailure_by_phrases text :
  let lowered := toLowerCase text in
  (classifySetFailure text = MissingKey <-> anyOccurs missingKeyPhrases lowered)
  /\ (classifySetFailure text = NonMissing
      <-> ~ anyOccurs missingKeyPhrases lowered /\ anyOccurs nonMissingPhrases lowered)
  /\ (classifySetFailure text = UnknownFailure
      <-> ~ anyOccurs missingKeyPhrases lowered
          /\ ~ anyOccurs nonMissingPhrases lowered).
Proof.
  intros lowered. rewrite classifySetFailure_existsb. fold lowered.
  rewrite <- !includes_any.
  destruct (existsb (includes lowered) missingKeyPhrases),
           (existsb (includes lowered) nonMissingPhrases);
    repeat split; try done; try (by intros [? ?]); by intros [].
Qed.

Lemma toLowerCase_app s t : toLowerCase (s ++ t) = toLowerCase s ++ toLowerCase t.
Proof. apply flat_map_app. Qed.

(** X6.  Letter case and position do not matter to the fallback: a failure
    text that contains, anywhere and in any letter case, one of the
    missing-key phrases is classified missing-key. *)
Theorem missing_key_phrase_anywhere (before phrase after : list N) :
  In (toLowerCase phrase) missingKeyPhrases ->
  classifySetFailure (before ++ phrase ++ after) = MissingKey.
Proof.
  intros Hin. rewrite classifySetFailure_existsb.
  rewrite (proj2 (includes_any _ _)); [done|].
  exists (toLowerCase phrase). split; [done|].
  rewrite !toLowerCase_app. by eexists _, _.
Qed.

Lemma missing_key_phrase_anywhere_witness :
  classifySetFailure
    (lit "Set: Entry, " ++ lit "Does Not Exist" ++ lit " (invalid path)")
  = MissingKey.
Proof.
  apply missing_key_phrase_anywhere. left. reflexivity.
Defined.

End ClassificationFacts.

(** ** Error texts and typed values *)

Section ErrorTextFacts.

Lemma nonempty_cons (s : list N) : s <> [] -> exists c t, s = c :: t.
Proof. destruct s as [|c t]; [done|by exists c, t]. Qed.

(** X7.  The error text of a command is never empty and never has white space
    at its ends; it is the trimmed error when the error has anything but white
    space, whatever the output holds. *)
Theorem getCommandErrorText_shape (output error : option (list N)) :
  getCommandErrorText output error <> []
  /\ trimmed (getCommandErrorText output error)
  /\ (forall e, error = Some e -> trim e <> [] ->
        getCommandErrorText output error = trim e).
Proof.
  unfold getCommandErrorText.
  destruct error as [e|]; cbn [fmap option_fmap option_map].
  - destruct (trim e) as [|c t] eqn:He.
    + destruct output as [o|]; cbn [fmap option_fmap option_map].
      * destruct (trim o) as [|c t] eqn:Ho.
        -- split; [done|]. split; [by apply trim_fixed_trimmed|]. by intros ? [= <-].
        -- rewrite <- Ho. split; [by rewrite Ho|]. split; [apply trim_trimmed|].
           intros ? [= <-]. by rewrite He.
      * split; [done|]. split; [by apply trim_fixed_trimmed|]. intros ? [= <-].
        by rewrite He.
    + rewrite <- He. split; [by rewrite He|]. split; [apply trim_trimmed|].
      by intros ? [= <-].
  - destruct output as [o|]; cbn [fmap option_fmap option_map].
    + destruct (trim o) as [|c t] eqn:Ho.
      * split; [done|]. split; [by apply trim_fixed_trimmed|]. done.
      * rewrite <- Ho. split; [by rewrite Ho|]. split; [apply trim_trimmed|]. done.
    + split; [done|]. split; [by apply trim_fixed_trimmed|]. done.
Qed.

Lemma getCommandErrorText_shape_witness :
  getCommandErrorText (Some (lit "ignored")) (Some (lit "  Entry Does Not Exist "))
  = lit "Entry Does Not Exist".
Proof.
  destruct (getCommandErrorText_shape (Some (lit "ignored"))
              (Some (lit "  Entry Does Not Exist "))) as (_ & _ & Herror).
  rewrite (Herror (lit "  Entry Does Not Exist ")); [reflexivity|reflexivity|].
  vm_compute. discriminate.
Defined.

End ErrorTextFacts.

Section TypedValueFacts.

Implicit Types s m e digits sign : list N.

Lemma isTokenChar_plain c :
  isTokenChar c = true ->
  isWhiteSpace c = false /\ c <> DQUOTE /\ c <> BACKSLASH /\ c <> COLON.
Proof.
  unfold isTokenChar, isDigit, isSign, PLUS, MINUS, DOT, DQUOTE, BACKSLASH, COLON.
  rewrite !orb_true_iff, !andb_true_iff, !N.leb_le, !N.eqb_eq. intros Htoken.
  split; [|lia].
  apply not_true_iff_false. unfold isWhiteSpace.
  rewrite !orb_true_iff, !andb_true_iff, !N.leb_le, !N.eqb_eq. lia.
Qed.

Lemma digitString_token digits :
  digitString digits -> forallb isTokenChar digits = true.
Proof.
  unfold digitString. rewrite !forallb_forall. intros Hd c Hc.
  unfold isTokenChar. by rewrite (Hd c Hc).
Qed.

Lemma signPrefix_token sign : signPrefix sign -> forallb isTokenChar sign = true.
Proof. by intros [->|[->| ->]]. Qed.

Lemma integerLiteral_token s : integerLiteral s -> forallb isTokenChar s = true.
Proof.
  intros (sign & digits & -> & Hsign & _ & Hdigits).
  rewrite forallb_app, signPrefix_token, digitString_token; done.
Qed.

Lemma mantissaLiteral_token m : mantissaLiteral m -> forallb isTokenChar m = true.
Proof.
  intros [(intPart & fracPart & -> & Hint & Hfrac & _)|[_ Hdigits]].
  - rewrite !forallb_app, (digitString_token intPart), (digitString_token fracPart)
      by done.
    reflexivity.
  - by apply digitString_token.
Qed.

Lemma exponentLiteral_token e : exponentLiteral e -> forallb isTokenChar e = true.
Proof.
  intros [->|(mark & rest & -> & Hmark & Hrest)]; [done|].
  cbn [forallb]. rewrite integerLiteral_token by done.
  rewrite andb_true_r. unfold isExponentMark in Hmark.
  apply orb_true_iff in Hmark as [Hm|Hm]; apply N.eqb_eq in Hm as ->; reflexivity.
Qed.

Lemma realLiteral_token s : realLiteral s -> forallb isTokenChar s = true.
Proof.
  intros (sign & mantissa & exponent & -> & Hsign & Hm & He).
  rewrite !forallb_app, signPrefix_token, mantissaLiteral_token, exponentLiteral_token;
    done.
Qed.

Lemma integerLiteral_nonempty s : integerLiteral s -> s <> [].
Proof.
  intros (sign & digits & -> & _ & Hne & _) Hnil.
  by apply app_eq_nil in Hnil as [_ ?].
Qed.

Lemma realLiteral_nonempty s : realLiteral s -> s <> [].
Proof.
  intros (sign & mantissa & exponent & -> & _ & Hm & _) Hnil.
  apply app_eq_nil in Hnil as [_ Hnil]. apply app_eq_nil in Hnil as [-> _].
  by destruct Hm as [(intPart & fracPart & Heq & _)|[? _]];
    [destruct intPart|].
Qed.

(** X8.  A bool, int or real value that passes validation is sent as one
    bare token: the value sent is the normalized value, it is not empty, it
    is made of digits, signs, dots and letters only, so it holds no white
    space, quote, backslash or colon, and normalizing it again leaves it as it
    is. *)
Theorem typed_value_is_a_token (value : list N) (valueType : PlistValueType)
    (normalizedValue commandValue : list N) :
  valueType <> VString ->
  normalizeValueForType value valueType = ValueOk normalizedValue commandValue ->
  commandValue = normalizedValue
  /\ commandValue <> []
  /\ forallb isTokenChar commandValue = true
  /\ Forall (fun c => isWhiteSpace c = false /\ c <> DQUOTE /\ c <> BACKSLASH
                      /\ c <> COLON) commandValue
  /\ normalizeValueForType commandValue valueType = ValueOk commandValue commandValue.
Proof.
  intros Htype Hnormalized.
  assert (Hcore : commandValue = normalizedValue
                  /\ commandValue <> []
                  /\ forallb isTokenChar commandValue = true
                  /\ normalizeValueForType commandValue valueType
                     = ValueOk commandValue commandValue).
  { unfold normalizeValueForType in *.
    destruct (validateValueForType value valueType) as [e|] eqn:Hvalid; [discriminate|].
    apply validateValueForType_grammar in Hvalid.
    destruct valueType; [done| | |]; injection Hnormalized as <- <-.
    - destruct Hvalid as [-> | ->]; by repeat split.
    - cbn [fitsGrammar] in Hvalid.
      split; [done|]. split; [by apply integerLiteral_nonempty|].
      split; [by apply integerLiteral_token|].
      rewrite (proj2 (validateValueForType_grammar (trim value) VInt)).
      + by rewrite trim_idempotent.
      + cbn [fitsGrammar]. by rewrite trim_idempotent.
    - cbn [fitsGrammar] in Hvalid. destruct Hvalid as [Hreal Hfinite].
      split; [done|]. split; [by apply realLiteral_nonempty|].
      split; [by apply realLiteral_token|].
      rewrite (proj2 (validateValueForType_grammar (trim value) VReal)).
      + by rewrite trim_idempotent.
      + cbn [fitsGrammar]. by rewrite trim_idempotent. }
  destruct Hcore as (Hsame & Hne & Htoken & Hagain).
  repeat split; try done.
  apply Forall_forall. intros c Hc%list_elem_of_In.
  rewrite forallb_forall in Htoken. by apply isTokenChar_plain, Htoken.
Qed.

Lemma typed_value_is_a_token_witness :
  normalizeValueForType (lit "-1.5e3") VReal = ValueOk (lit "-1.5e3") (lit "-1.5e3").
Proof.
  destruct (typed_value_is_a_token (lit "  -1.5e3 ") VReal (lit "-1.5e3") (lit "-1.5e3"))
    as (_ & _ & _ & _ & Hagain); [discriminate|vm_compute; reflexivity|exact Hagain].
Defined.

End TypedValueFacts.

(** ** The command protocol of the plist tool *)

Section ProtocolFacts.

Context `{Responses}.

Variable params : SetPlistValueParams.
Variable executor : CommandExecutor.
Variable fileSystemExecutor : FileSystemExecutor.

(** Either a check fails and nothing is run, or the checks pass and the tool
    is its command protocol. *)
Lemma set_plist_valueLogic_cases (result : Outcome ToolResponse) (log : list Call) :
  run (set_plist_valueLogic params executor fileSystemExecutor) = (result, log) ->
  (log = []
   /\ ((exists e, result = Threw e)
       \/ (exists message details,
             result = Returned (createErrorResponse message details))))
  \/ (exists plistBuddyKeyPath commandValue,
        preflightPasses params fileSystemExecutor plistBuddyKeyPath commandValue
        /\ run (writeAndVerify params plistBuddyKeyPath commandValue executor)
           = (result, log)).
Proof.
  destruct (existsSync fileSystemExecutor (plistPath params)) as [fileExists|e] eqn:Hfile.
  2:{ unfold run, set_plist_valueLogic, bind, liftOutcome. rewrite Hfile.
      intros [-> ->]%run_result. left. eauto. }
  destruct fileExists.
  2:{ unfold run, set_plist_valueLogic, bind, liftOutcome. rewrite Hfile. cbn [negb].
      intros [-> ->]%run_result. left. eauto 6. }
  destruct (normalizeKeyPathForPlistBuddy (keyPath params)) as [segs kp|e] eqn:Hkey.
  2:{ unfold run, set_plist_valueLogic, bind, liftOutcome. rewrite Hfile, Hkey. cbn [negb].
      intros [-> ->]%run_result. left. eauto 6. }
  destruct (normalizeValueForType (value params) (valueType params))
    as [nv cv|e] eqn:Hvalue.
  2:{ unfold run, set_plist_valueLogic, bind, liftOutcome.
      rewrite Hfile, Hkey, Hvalue, (normalizeKeyPath_nonempty _ _ _ Hkey). cbn [negb].
      intros [-> ->]%run_result. left. eauto 6. }
  intros Hrun. right. exists kp, cv.
  assert (Hpre : preflightPasses params fileSystemExecutor kp cv)
    by (unfold preflightPasses; eauto).
  split; [done|]. unfold run in *.
  by rewrite <- (set_plist_valueLogic_preflight _ _ _ _ _ _ Hpre).
Qed.

Variable plistBuddyKeyPath commandValue : jsstring.

Local Abbreviation theRead := (readCall params plistBuddyKeyPath).
Local Abbreviation theSet := (setCall params plistBuddyKeyPath commandValue).
Local Abbreviation theAdd := (addCall params plistBuddyKeyPath commandValue).
Local Abbreviation theVerify := (verifyCall params plistBuddyKeyPath).
Local Abbreviation previous :=
  (previousValueOf (valueType params) (answerTo executor [] theRead)).

Lemma verifyAndReport_end (before : list Call) :
  VerifyEnd params executor plistBuddyKeyPath before
    (fst (verifyAndReport params plistBuddyKeyPath executor previous before))
    (snd (verifyAndReport params plistBuddyKeyPath executor previous before)).
Proof.
  rewrite verifyAndReport_run. cbn [fst snd].
  destruct (answerTo executor before theVerify) as [verifyResult|e] eqn:Hverify.
  - destruct (success verifyResult) eqn:Hok.
    + by apply VerifyConfirmed.
    + by apply VerifyFailed.
  - by apply VerifyRejected.
Qed.

(** Every run of the protocol ends in one of the ways of [ProtocolEnd]. *)
Lemma writeAndVerify_end :
  ProtocolEnd params executor plistBuddyKeyPath commandValue
    (fst (run (writeAndVerify params plistBuddyKeyPath commandValue executor)))
    (snd (run (writeAndVerify params plistBuddyKeyPath commandValue executor))).
Proof.
  pose proof (writeAndVerify_run params executor plistBuddyKeyPath commandValue) as Heq.
  cbv zeta in Heq. rewrite Heq. clear Heq.
  destruct (answerTo executor [theRead] theSet) as [setResult|e] eqn:Hset.
  2:{ by apply SetRejected. }
  destruct (success setResult) eqn:Hok.
  { eapply SetDone; [done|done|]. apply verifyAndReport_end. }
  pose proof (handleSetFailure_run params executor plistBuddyKeyPath commandValue
                setResult [theRead; theSet]) as Heq.
  cbv zeta in Heq. rewrite Heq. clear Heq.
  destruct (fallbackAllowed params _) eqn:Hallowed.
  2:{ by apply SetRefused. }
  destruct (answerTo executor [theRead; theSet] theAdd) as [addResult|e] eqn:Hadd.
  2:{ by eapply AddRejected. }
  destruct (success addResult) eqn:Hadd_ok.
  - eapply AddDone; [done|done|done|done|done|]. apply verifyAndReport_end.
  - by eapply AddFailed.
Qed.

End ProtocolFacts.

Section ProtocolProperties.

Context `{Responses}.

Variable params : SetPlistValueParams.
Variable executor : CommandExecutor.
Variable fileSystemExecutor : FileSystemExecutor.

Lemma fallbackAllowed_create setErrorText :
  fallbackAllowed params setErrorText = true -> createIfMissing params = true.
Proof. unfold fallbackAllowed. by intros [? _]%andb_true_iff. Qed.

Lemma set_plist_valueLogic_end (result : Outcome ToolResponse) (log : list Call) :
  run (set_plist_valueLogic params executor fileSystemExecutor) = (result, log) ->
  (log = []
   /\ ((exists e, result = Threw e)
       \/ (exists message details,
             result = Returned (createErrorResponse message details))))
  \/ (exists plistBuddyKeyPath commandValue,
        preflightPasses params fileSystemExecutor plistBuddyKeyPath commandValue
        /\ ProtocolEnd params executor plistBuddyKeyPath commandValue result log).
Proof.
  intros [Hstop|(kp & cv & Hpre & Hrun)]%set_plist_valueLogic_cases; [by left|].
  right. exists kp, cv. split; [done|].
  pose proof (writeAndVerify_end params executor kp cv) as Hend.
  by rewrite Hrun in Hend.
Qed.

(** X9.  Whatever the executor answers, the commands of one call of the tool
    follow one of five sequences: none; read, Set; read, Set, verify; read,
    Set, Add; read, Set, Add, verify.  So at most four commands are run, a Set
    is always preceded by the read, and an Add occurs only after a Set and
    only when [createIfMissing] is true. *)
Theorem command_sequences (result : Outcome ToolResponse) (log : list Call) :
  run (set_plist_valueLogic params executor fileSystemExecutor) = (result, log) ->
  log = []
  \/ (exists plistBuddyKeyPath commandValue,
        preflightPasses params fileSystemExecutor plistBuddyKeyPath commandValue
        /\ let theRead := readCall params plistBuddyKeyPath in
           let theSet := setCall params plistBuddyKeyPath commandValue in
           let theAdd := addCall params plistBuddyKeyPath commandValue in
           let theVerify := verifyCall params plistBuddyKeyPath in
           log = [theRead; theSet]
           \/ log = [theRead; theSet; theVerify]
           \/ (createIfMissing params = true
               /\ (log = [theRead; theSet; theAdd]
                   \/ log = [theRead; theSet; theAdd; theVerify]))).
Proof.
  intros [[-> _]|(kp & cv & Hpre & Hend)]%set_plist_valueLogic_end; [by left|].
  right. exists kp, cv. split; [done|]. cbv zeta.
  destruct Hend as [e Hset|setResult result log Hset Hok Hverify|setResult Hset Hfail Hno
                   |setResult e Hset Hfail Hyes Hadd
                   |setResult addResult Hset Hfail Hyes Hadd Hadd_fail
                   |setResult addResult result log Hset Hfail Hyes Hadd Hadd_ok Hverify].
  - by left.
  - right. left. by destruct Hverify.
  - by left.
  - right. right. split; [by eapply fallbackAllowed_create|by left].
  - right. right. split; [by eapply fallbackAllowed_create|by left].
  - right. right. split; [by eapply fallbackAllowed_create|].
    right. by destruct Hverify.
Qed.

(** X10.  The tool reports success only for a write it has read back: a
    response that is not an error means that the checks passed, that the last
    command was the verification read, that this read succeeded, and the text
    of the response shows the value it returned. *)
Theorem success_is_verified (response : ToolResponse) (log : list Call) :
  run (set_plist_valueLogic params executor fileSystemExecutor)
  = (Returned response, log) ->
  isError response = false ->
  exists plistBuddyKeyPath commandValue before verifyResult,
    preflightPasses params fileSystemExecutor plistBuddyKeyPath commandValue
    /\ log = before ++ [verifyCall params plistBuddyKeyPath]
    /\ answerTo executor before (verifyCall params plistBuddyKeyPath)
       = Returned verifyResult
    /\ success verifyResult = true
    /\ occursIn
         (lit "'" ++ normalizeDisplayedValue (output verifyResult) (valueType params)
            ++ lit "'")
         (responseText response).
Proof.
  intros Hrun Hok.
  assert (Hnot : forall message details,
             Returned (createErrorResponse message details) <> Returned response).
  { intros message details Heq%Returned_inj. subst response.
    by rewrite createErrorResponse_isError in Hok. }
  assert (Hverified : forall kp before r l,
    VerifyEnd params executor kp before r l -> r = Returned response ->
    exists verifyResult,
      l = before ++ [verifyCall params kp]
      /\ answerTo executor before (verifyCall params kp) = Returned verifyResult
      /\ success verifyResult = true
      /\ occursIn
           (lit "'" ++ normalizeDisplayedValue (output verifyResult) (valueType params)
              ++ lit "'")
           (responseText response)).
  { intros kp before r l [e He|verifyResult Hv Hfail|verifyResult Hv Hv_ok] Hr.
    - discriminate.
    - by apply Hnot in Hr.
    - apply Returned_inj in Hr as <-. exists verifyResult.
      split; [done|]. split; [done|]. split; [done|]. apply successText_final. }
  apply set_plist_valueLogic_end in Hrun
    as [[_ [[e ?]|(message & details & Heq)]]|(kp & cv & Hpre & Hend)];
    [discriminate|symmetry in Heq; by apply Hnot in Heq|].
  revert Hend. generalize (eq_refl (Returned response)).
  generalize (Returned response) at 1 3 as result. intros result Hresult Hend.
  destruct Hend as [e Hset|setResult result log Hset Hset_ok Hverify|setResult Hset Hfail Hno
                   |setResult e Hset Hfail Hyes Hadd
                   |setResult addResult Hset Hfail Hyes Hadd Hadd_fail
                   |setResult addResult result log Hset Hfail Hyes Hadd Hadd_ok Hverify].
  - discriminate.
  - destruct (Hverified _ _ _ _ Hverify Hresult) as (verifyResult & ? & ? & ? & ?).
    by exists kp, cv, [readCall params kp; setCall params kp cv], verifyResult.
  - by apply Hnot in Hresult.
  - discriminate.
  - by apply Hnot in Hresult.
  - destruct (Hverified _ _ _ _ Hverify Hresult) as (verifyResult & ? & ? & ? & ?).
    by exists kp, cv, [readCall params kp; setCall params kp cv; addCall params kp cv],
      verifyResult.
Qed.

Variable plistBuddyKeyPath commandValue : jsstring.

Local Abbreviation theRead := (readCall params plistBuddyKeyPath).
Local Abbreviation theSet := (setCall params plistBuddyKeyPath commandValue).
Local Abbreviation theAdd := (addCall params plistBuddyKeyPath commandValue).
Local Abbreviation theVerify := (verifyCall params plistBuddyKeyPath).

(** X11.  The Add fallback, end to end: when the Set fails with a text that is
    not classified non-missing, [createIfMissing] is true, and the Add and the
    verification read succeed, the tool runs read, Set, Add, verify and
    returns a success showing the value read back; when the initial read had
    not succeeded the text ends there, with no previous value. *)
Theorem add_fallback_round_trip (setResult addResult verifyResult : CommandResponse) :
  preflightPasses params fileSystemExecutor plistBuddyKeyPath commandValue ->
  answerTo executor [theRead] theSet = Returned setResult ->
  success setResult = false ->
  createIfMissing params = true ->
  classifySetFailure (getCommandErrorText (Some (output setResult)) (error setResult))
  <> NonMissing ->
  answerTo executor [theRead; theSet] theAdd = Returned addResult ->
  success addResult = true ->
  answerTo executor [theRead; theSet; theAdd] theVerify = Returned verifyResult ->
  success verifyResult = true ->
  let finalValue := normalizeDisplayedValue (output verifyResult) (valueType params) in
  let previousValue := previousValueOf (valueType params) (answerTo executor [] theRead) in
  run (set_plist_valueLogic params executor fileSystemExecutor)
  = (Returned {| content := [{| type_ := lit "text";
                                text := successText params finalValue previousValue |}];
                 isError := false |},
     [theRead; theSet; theAdd; theVerify])
  /\ (previousValue = None ->
      successText params finalValue previousValue
      = lit "Set plist key '" ++ keyPath params ++ lit "' in '" ++ plistPath params
          ++ lit "' to '" ++ finalValue ++ lit "'.").
Proof.
  intros Hpre Hset Hfail Hcreate Hclass Hadd Hadd_ok Hverify Hverify_ok
    finalValue previousValue.
  split.
  - unfold run.
    rewrite (set_plist_valueLogic_preflight _ _ _ _ _ _ Hpre).
    pose proof (writeAndVerify_run params executor plistBuddyKeyPath commandValue) as Heq.
    cbv zeta in Heq. unfold run in Heq. rewrite Heq. clear Heq.
    rewrite Hset, Hfail.
    pose proof (handleSetFailure_run params executor plistBuddyKeyPath commandValue
                  setResult [theRead; theSet]) as Heq.
    cbv zeta in Heq. rewrite Heq. clear Heq.
    unfold fallbackAllowed. rewrite Hcreate. cbn [andb].
    destruct (classifySetFailure _); [|done|]; cbn [isNonMissing negb];
      rewrite Hadd, Hadd_ok, verifyAndReport_run;
      change ([theRead; theSet] ++ [theAdd]) with [theRead; theSet; theAdd];
      by rewrite Hverify, Hverify_ok.
  - intros ->. unfold successText. by rewrite app_nil_r.
Qed.

(** X12.  When the Add fallback fails too, nothing is verified: the tool stops
    after read, Set, Add and returns an error whose text shows both the Set
    failure, after [set_error:], and the Add failure, after [add_error:]. *)
Theorem add_failure_reports_both (setResult addResult : CommandResponse) :
  preflightPasses params fileSystemExecutor plistBuddyKeyPath commandValue ->
  answerTo executor [theRead] theSet = Returned setResult ->
  success setResult = false ->
  createIfMissing params = true ->
  classifySetFailure (getCommandErrorText (Some (output setResult)) (error setResult))
  <> NonMissing ->
  answerTo executor [theRead; theSet] theAdd = Returned addResult ->
  success addResult = false ->
  let setErrorText :=
    getCommandErrorText (Some (output setResult)) (error setResult) in
  let addErrorText :=
    getCommandErrorText (Some (output addResult)) (error addResult) in
  exists response,
    run (set_plist_valueLogic params executor fileSystemExecutor)
    = (Returned response, [theRead; theSet; theAdd])
    /\ isError response = true
    /\ occursIn (lit "set_error: " ++ setErrorText) (responseText response)
    /\ occursIn (lit "add_error: " ++ addErrorText) (responseText response).
Proof.
  intros Hpre Hset Hfail Hcreate Hclass Hadd Hadd_fail setErrorText addErrorText.
  exists (createErrorResponse (lit "Failed to set plist value")
            (join [LF] [lit "set_error: " ++ setErrorText;
                        lit "add_error: " ++ addErrorText])).
  split; [|split; [apply createErrorResponse_isError|split]].
  - unfold run.
    rewrite (set_plist_valueLogic_preflight _ _ _ _ _ _ Hpre).
    pose proof (writeAndVerify_run params executor plistBuddyKeyPath commandValue) as Heq.
    cbv zeta in Heq. unfold run in Heq. rewrite Heq. clear Heq.
    rewrite Hset, Hfail.
    pose proof (handleSetFailure_run params executor plistBuddyKeyPath commandValue
                  setResult [theRead; theSet]) as Heq.
    cbv zeta in Heq. rewrite Heq. clear Heq.
    unfold fallbackAllowed. rewrite Hcreate. cbn [andb].
    destruct (classifySetFailure _); [|done|]; cbn [isNonMissing negb];
      by rewrite Hadd, Hadd_fail.
  - eapply occursIn_trans; [|apply createErrorResponse_details].
    cbn [join]. apply occursIn_app_l, occursIn_refl.
  - eapply occursIn_trans; [|apply createErrorResponse_details].
    cbn [join]. apply occursIn_app_r, occursIn_app_r, occursIn_refl.
Qed.

End ProtocolProperties.

Lemma command_sequences_witness :
  length (snd (run (set_plist_valueLogic arbitraryLoadsParams fallbackMock
                      (fileSystemWith true)))) = 4%nat.
Proof.
  destruct (run (set_plist_valueLogic arbitraryLoadsParams fallbackMock
                   (fileSystemWith true))) as [result log] eqn:Hrun.
  destruct (command_sequences arbitraryLoadsParams fallbackMock (fileSystemWith true)
              result log Hrun) as [->|(kp & cv & _ & Hshape)];
    [vm_compute in Hrun; discriminate|].
  cbv zeta in Hshape.
  destruct Hshape as [->|[->|[_ [->| ->]]]];
    first [reflexivity | vm_compute in Hrun; discriminate].
Defined.

Lemma success_is_verified_witness :
  exists plistBuddyKeyPath commandValue before verifyResult,
    preflightPasses displayNameParams (fileSystemWith true) plistBuddyKeyPath commandValue
    /\ [readCall displayNameParams displayNameKey;
        setCall displayNameParams displayNameKey displayNameValue;
        verifyCall displayNameParams displayNameKey]
       = before ++ [verifyCall displayNameParams plistBuddyKeyPath]
    /\ answerTo overwriteMock before (verifyCall displayNameParams plistBuddyKeyPath)
       = Returned verifyResult
    /\ success verifyResult = true
    /\ occursIn
         (lit "'" ++ normalizeDisplayedValue (output verifyResult) VString ++ lit "'")
         (lit "Set plist key 'CFBundleDisplayName' in '/tmp/Info.plist' to 'New Name'. Previous value: Old Name.").
Proof.
  apply (success_is_verified displayNameParams overwriteMock (fileSystemWith true)
           {| content :=
                [{| type_ := lit "text";
                    text := lit "Set plist key 'CFBundleDisplayName' in '/tmp/Info.plist' to 'New Name'. Previous value: Old Name." |}];
              isError := false |}).
  - vm_compute. reflexivity.
  - reflexivity.
Defined.

Lemma add_fallback_round_trip_witness :
  run (set_plist_valueLogic arbitraryLoadsParams fallbackMock (fileSystemWith true))
  = (Returned
       {| content :=
            [{| type_ := lit "text";
                text := lit "Set plist key 'NSAppTransportSecurity:NSAllowsArbitraryLoads' in '/tmp/Info.plist' to 'true'." |}];
          isError := false |},
     [readCall arbitraryLoadsParams arbitraryLoadsKey;
      setCall arbitraryLoadsParams arbitraryLoadsKey (lit "true");
      addCall arbitraryLoadsParams arbitraryLoadsKey (lit "true");
      verifyCall arbitraryLoadsParams arbitraryLoadsKey]).
Proof.
  destruct (add_fallback_round_trip arbitraryLoadsParams fallbackMock
              (fileSystemWith true) arbitraryLoadsKey (lit "true")
              (mockResponse false [] (Some (lit "Entry Does Not Exist")))
              (mockResponse true [] None)
              (mockResponse true (lit "true") None)) as [Hrun Htext].
  - split; [reflexivity|]. split; eexists; vm_compute; reflexivity.
  - vm_compute. reflexivity.
  - reflexivity.
  - reflexivity.
  - vm_compute. discriminate.
  - vm_compute. reflexivity.
  - reflexivity.
  - vm_compute. reflexivity.
  - reflexivity.
  - rewrite Hrun. rewrite Htext; [|vm_compute; reflexivity]. reflexivity.
Defined.

Lemma add_failure_reports_both_witness :
  exists response,
    run (set_plist_valueLogic arbitraryLoadsParams readOnlyFileMock (fileSystemWith true))
    = (Returned response,
       [readCall arbitraryLoadsParams arbitraryLoadsKey;
        setCall arbitraryLoadsParams arbitraryLoadsKey (lit "true");
        addCall arbitraryLoadsParams arbitraryLoadsKey (lit "true")])
    /\ isError response = true
    /\ occursIn (lit "set_error: Entry Does Not Exist") (responseText response)
    /\ occursIn (lit "add_error: Could not write file") (responseText response).
Proof.
  apply (add_failure_reports_both arbitraryLoadsParams readOnlyFileMock
           (fileSystemWith true) arbitraryLoadsKey (lit "true")
           (mockResponse false [] (Some (lit "Entry Does Not Exist")))
           (mockResponse false [] (Some (lit "Could not write file")))).
  - split; [reflexivity|]. split; eexists; vm_compute; reflexivity.
  - vm_compute. reflexivity.
  - reflexivity.
  - reflexivity.
  - vm_compute. discriminate.
  - vm_compute. reflexivity.
  - reflexivity.
Defined.

(** ** The binary checker of the doctor *)

Section BinaryCheckerFacts.

Variable imports : DoctorImports.
Variable executor : CommandExecutor.

Lemma probeVersion_run command logPrefix (log : list Call) :
  probeVersion executor command logPrefix log
  = (Returned (match executor log command logPrefix with
               | Returned res =>
                   if success res && negb (isEmpty (output res))
                   then Some (trim (output res)) else None
               | Threw _ => None
               end),
     log ++ [CallExecutor command logPrefix]).
Proof.
  unfold probeVersion, tryCatch, bind, callExecutor, ret.
  by destruct (executor log command logPrefix).
Qed.

Lemma versionOrUnknown_probe (o : Outcome CommandResponse) :
  versionOrUnknown
    (match o with
     | Returned res =>
         if success res && negb (isEmpty (output res))
         then Some (trim (output res)) else None
     | Threw _ => None
     end)
  = versionFrom o.
Proof.
  destruct o as [res|e]; [|done]. simpl.
  by destruct (success res && negb (isEmpty (output res))).
Qed.

Lemma streqb_neq (a b : list N) : a <> b -> streqb a b = false.
Proof.
  intros Hne. apply not_true_iff_false. by intros Heq%streqb_eq.
Qed.

(** The branch of [checkBinaryAvailability] for a binary that is neither
    [axe] nor [xcodemake]. *)
Lemma checkBinaryAvailability_which binary (log : list Call) :
  binary <> lit "axe" -> binary <> lit "xcodemake" ->
  checkBinaryAvailability imports executor binary log
  = if succeeded (answerTo executor log (whichCall binary)) then
      if streqb binary (lit "mise") then
        (Returned {| available := true;
                     version :=
                       Some (versionFrom
                               (answerTo executor (log ++ [whichCall binary])
                                  miseVersionCall)) |},
         log ++ [whichCall binary; miseVersionCall])
      else
        (Returned {| available := true; version := Some versionUnknown |},
         log ++ [whichCall binary])
    else
      (Returned {| available := false; version := None |}, log ++ [whichCall binary]).
Proof.
  intros Haxe Hmake. unfold checkBinaryAvailability.
  rewrite (streqb_neq _ _ Haxe), (streqb_neq _ _ Hmake).
  unfold bind at 1, tryCatch, bind at 1, callExecutor, ret, answerTo, whichCall.
  destruct (executor log [lit "which"; binary] (lit "Check Binary Availability"))
    as [which|e]; [|done].
  cbn [succeeded]. destruct (success which); cbn [negb]; [|done].
  destruct (streqb binary (lit "mise")); [|done].
  unfold bind. rewrite probeVersion_run.
  change (splitOn SPACE (lit "mise --version")) with [lit "mise"; lit "--version"].
  rewrite versionOrUnknown_probe. unfold miseVersionCall, answerTo.
  by rewrite <- app_assoc.
Qed.

(** The branch for [axe]. *)
Lemma checkBinaryAvailability_axe (log : list Call) :
  checkBinaryAvailability imports executor (lit "axe") log
  = match resolveAxeBinary imports log with
    | None =>
        (Returned {| available := false; version := None |},
         log ++ [CallResolveAxeBinary])
    | Some axe =>
        (Returned {| available := true;
                     version :=
                       Some (versionFrom
                               (answerTo executor (log ++ [CallResolveAxeBinary])
                                  (axeVersionCall axe))) |},
         log ++ [CallResolveAxeBinary; axeVersionCall axe])
    end.
Proof.
  unfold checkBinaryAvailability.
  change (streqb (lit "axe") (lit "axe")) with true. cbv iota.
  unfold bind at 1, callResolveAxeBinary.
  destruct (resolveAxeBinary imports log) as [axe|]; [|done].
  unfold bind. rewrite probeVersion_run, versionOrUnknown_probe.
  unfold axeVersionCall, answerTo, ret. by rewrite <- app_assoc.
Qed.

Lemma checkBinaryAvailability_xcodemake (log : list Call) :
  checkBinaryAvailability imports executor (lit "xcodemake") log
  = (Returned {| available := isXcodemakeBinaryAvailable imports log;
                 version := if isXcodemakeBinaryAvailable imports log
                            then Some versionUnknown else None |},
     log ++ [CallIsXcodemakeBinaryAvailable]).
Proof. reflexivity. Qed.

(** X13.  Availability and version go together for every binary and every
    executor: the checker reports a version exactly when it reports the
    binary available, and no version exactly when it reports it absent. *)
Theorem available_iff_version binary (log log' : list Call) (r : BinaryAvailability) :
  checkBinaryAvailability imports executor binary log = (Returned r, log') ->
  (available r = true <-> is_Some (version r))
  /\ (available r = false <-> version r = None).
Proof.
  intros Hrun.
  destruct (decide (binary = lit "axe")) as [->|Haxe].
  { rewrite checkBinaryAvailability_axe in Hrun.
    destruct (resolveAxeBinary imports log);
      apply run_result in Hrun as [Hr _]; apply Returned_inj in Hr as ->; cbn;
      repeat split; try done; by intros []. }
  destruct (decide (binary = lit "xcodemake")) as [->|Hmake].
  { rewrite checkBinaryAvailability_xcodemake in Hrun.
    apply run_result in Hrun as [Hr _]. apply Returned_inj in Hr as ->. cbn.
    destruct (isXcodemakeBinaryAvailable imports log);
      repeat split; try done; by intros []. }
  rewrite checkBinaryAvailability_which in Hrun by done.
  destruct (succeeded _); [destruct (streqb binary (lit "mise"))|];
    apply run_result in Hrun as [Hr _]; apply Returned_inj in Hr as ->; cbn;
    repeat split; try done; by intros [].
Qed.

(** X14.  For a binary other than [axe] and [xcodemake], availability is what
    [which] says: the first command is [which <binary>], the binary is
    reported available exactly when that command resolved with success (a
    rejected command counts as absent), and nothing else is run unless the
    binary is [mise] and was found. *)
Theorem which_decides_availability binary (log log' : list Call)
    (result : Outcome BinaryAvailability) :
  binary <> lit "axe" -> binary <> lit "xcodemake" ->
  checkBinaryAvailability imports executor binary log = (result, log') ->
  exists r rest,
    result = Returned r
    /\ log' = log ++ whichCall binary :: rest
    /\ available r = succeeded (answerTo executor log (whichCall binary))
    /\ (available r = false \/ binary <> lit "mise" -> rest = [])
    /\ (available r = true -> binary <> lit "mise" -> version r = Some versionUnknown).
Proof.
  intros Haxe Hmake Hrun. rewrite checkBinaryAvailability_which in Hrun by done.
  destruct (succeeded _).
  - destruct (streqb binary (lit "mise")) eqn:Hmise;
      apply run_result in Hrun as [-> ->]; eexists _, _;
      (split; [reflexivity|]); (split; [reflexivity|]); cbn.
    + apply streqb_eq in Hmise. repeat split; try done. by intros [|].
    + done.
  - apply run_result in Hrun as [-> ->]. by eexists _, [].
Qed.

(** X15.  When [which mise] succeeds, the version query cannot turn the
    answer around: [mise] is reported available after exactly the two commands
    [which mise] and [mise --version].  The version is the trimmed output of
    the second when it succeeded with some output (the empty string when that
    output is white space only), and the placeholder when it failed or was
    rejected. *)
Theorem mise_version_is_best_effort (log : list Call) :
  succeeded (answerTo executor log (whichCall (lit "mise"))) = true ->
  checkBinaryAvailability imports executor (lit "mise") log
  = (Returned {| available := true;
                 version :=
                   Some (versionFrom
                           (answerTo executor (log ++ [whichCall (lit "mise")])
                              miseVersionCall)) |},
     log ++ [whichCall (lit "mise"); miseVersionCall])
  /\ (succeeded (answerTo executor (log ++ [whichCall (lit "mise")]) miseVersionCall)
      = false ->
      versionFrom (answerTo executor (log ++ [whichCall (lit "mise")]) miseVersionCall)
      = versionUnknown)
  /\ (forall res,
        answerTo executor (log ++ [whichCall (lit "mise")]) miseVersionCall
        = Returned res ->
        success res = true -> output res <> [] ->
        versionFrom (answerTo executor (log ++ [whichCall (lit "mise")]) miseVersionCall)
        = trim (output res)
        /\ (forallb isWhiteSpace (output res) = true ->
            versionFrom
              (answerTo executor (log ++ [whichCall (lit "mise")]) miseVersionCall)
            = [])).
Proof.
  intros Hwhich. split; [|split].
  - rewrite checkBinaryAvailability_which by discriminate. by rewrite Hwhich.
  - destruct (answerTo executor _ miseVersionCall) as [res|e]; [|done].
    cbn. by intros ->.
  - intros res -> Hok Hout. cbn. rewrite Hok.
    rewrite (proj2 (isEmpty_false _) Hout). cbn. split; [done|].
    by intros ->%trim_nil.
Qed.

(** X16.  AXe is judged by its resolved binary alone: with no binary resolved
    it is reported absent and no command is run; with a binary resolved it is
    reported available whatever the executor does, after the single command
    [<path> --version]. *)
Theorem axe_is_judged_by_resolution (log log' : list Call)
    (result : Outcome BinaryAvailability) :
  checkBinaryAvailability imports executor (lit "axe") log = (result, log') ->
  match resolveAxeBinary imports log with
  | None =>
      result = Returned {| available := false; version := None |}
      /\ executorCommands log' = executorCommands log
  | Some axe =>
      (exists v, result = Returned {| available := true; version := Some v |})
      /\ executorCommands log' = executorCommands log ++ [[path axe; lit "--version"]]
  end.
Proof.
  rewrite checkBinaryAvailability_axe.
  destruct (resolveAxeBinary imports log) as [axe|];
    intros [-> ->]%run_result.
  - split; [by eexists|].
    unfold executorCommands. by rewrite flat_map_app.
  - split; [done|].
    unfold executorCommands. rewrite flat_map_app. cbn. by rewrite app_nil_r.
Qed.

End BinaryCheckerFacts.

(** ** The Xcode probe *)

Section XcodeProbeFacts.

Variable executor : CommandExecutor.

Lemma runOrThrow_run command logPrefix failure (log : list Call) :
  runOrThrow executor command logPrefix failure log
  = (match executor log command logPrefix with
     | Returned res => if success res then Returned res else Threw (ThrownError failure)
     | Threw e => Threw e
     end,
     log ++ [CallExecutor command logPrefix]).
Proof.
  unfold runOrThrow, bind, callExecutor, throw, ret.
  destruct (executor log command logPrefix) as [res|e]; [|done].
  by destruct (success res).
Qed.

Lemma splitFrom_pieces (sep : N) (s : list N) : forall cur,
  ~ In sep cur ->
  Forall (fun piece => ~ In sep piece) (splitFrom sep cur s).
Proof.
  induction s as [|c s IH]; intros cur Hcur; simpl.
  - by repeat constructor.
  - destruct (c =? sep) eqn:Hc.
    + constructor; [done|]. apply IH. intros [].
    + apply IH. intros [Hin|[->|[]]]%in_app_iff; [done|].
      by rewrite N.eqb_refl in Hc.
Qed.

Lemma join_free (sep : N) (glue : list N) (parts : list (list N)) :
  ~ In sep glue ->
  Forall (fun piece => ~ In sep piece) parts ->
  ~ In sep (join glue parts).
Proof.
  intros Hglue. induction 1 as [|piece parts Hpiece Hparts IH]; [by intros []|].
  destruct parts as [|next parts]; [done|].
  change (join glue (piece :: next :: parts))
    with (piece ++ glue ++ join glue (next :: parts)).
  intros [?|[?|?]%in_app_iff]%in_app_iff; tauto.
Qed.

Lemma Forall_firstn {A} (P : A -> Prop) n (l : list A) :
  Forall P l -> Forall P (firstn n l).
Proof.
  intros Hall. revert n. induction Hall as [|x l Hx Hl IH]; intros [|n]; simpl;
    constructor; auto.
Qed.

(** The version line built from the output of [xcodebuild -version]. *)
Lemma xcodeVersion_single_line (out : list N) :
  ~ In LF (join (lit " - ") (firstn 2 (splitOn LF (trim out)))).
Proof.
  apply join_free.
  - vm_compute. intuition discriminate.
  - apply Forall_firstn, splitFrom_pieces. by intros [].
Qed.

(** The run of [getXcodeInfo], command by command. *)
Lemma getXcodeInfo_run (log : list Call) :
  let answer := xcodeAnswer executor log in
  let out k := match answer k with Returned res => output res | Threw _ => [] end in
  getXcodeInfo executor log
  = if negb (succeeded (answer 0%nat)) then
      (Returned (XcodeInfoError (xcodeErrorOf 0 (answer 0%nat))),
       log ++ firstn 1 xcodeProbeCalls)
    else if negb (succeeded (answer 1%nat)) then
      (Returned (XcodeInfoError (xcodeErrorOf 1 (answer 1%nat))),
       log ++ firstn 2 xcodeProbeCalls)
    else if negb (succeeded (answer 2%nat)) then
      (Returned (XcodeInfoError (xcodeErrorOf 2 (answer 2%nat))),
       log ++ firstn 3 xcodeProbeCalls)
    else if negb (succeeded (answer 3%nat)) then
      (Returned (XcodeInfoError (xcodeErrorOf 3 (answer 3%nat))),
       log ++ firstn 4 xcodeProbeCalls)
    else
      (Returned (XcodeInfoOk
                   (join (lit " - ") (firstn 2 (splitOn LF (trim (out 0%nat)))))
                   (trim (out 1%nat)) (trim (out 2%nat)) (trim (out 3%nat))),
       log ++ firstn 4 xcodeProbeCalls).
Proof.
  cbv zeta. unfold getXcodeInfo, tryCatch, xcodeAnswer.
  cbn [firstn nth xcodeProbeCalls answerTo]. rewrite app_nil_r.
  unfold bind at 1. rewrite runOrThrow_run.
  destruct (executor log _ _) as [r0|e0]; [|reflexivity]. cbn [succeeded].
  destruct (success r0); cbn [negb]; [|reflexivity].
  unfold bind at 1. rewrite runOrThrow_run.
  destruct (executor (log ++ [_]) _ _) as [r1|e1];
    [|rewrite <- app_assoc; reflexivity].
  cbn [succeeded].
  destruct (success r1); cbn [negb]; [|rewrite <- app_assoc; reflexivity].
  unfold bind at 1. rewrite runOrThrow_run, <- app_assoc. cbn [app].
  destruct (executor (log ++ [_; _]) _ _) as [r2|e2];
    [|rewrite <- app_assoc; reflexivity].
  cbn [succeeded].
  destruct (success r2); cbn [negb]; [|rewrite <- app_assoc; reflexivity].
  unfold bind at 1. rewrite runOrThrow_run, <- app_assoc. cbn [app].
  destruct (executor (log ++ [_; _; _]) _ _) as [r3|e3];
    [|rewrite <- app_assoc; reflexivity].
  cbn [succeeded].
  destruct (success r3); cbn [negb]; rewrite <- app_assoc; reflexivity.
Qed.

Lemma splitFrom_whole (sep : N) (s : list N) : forall cur,
  ~ In sep s -> splitFrom sep cur s = [cur ++ s].
Proof.
  induction s as [|c s IH]; intros cur Hs; simpl.
  - by rewrite app_nil_r.
  - destruct (c =? sep) eqn:Hc.
    + apply N.eqb_eq in Hc as ->. exfalso. apply Hs. by left.
    + rewrite IH; [by rewrite <- app_assoc|]. intros Hin. apply Hs. by right.
Qed.

(** X17.  The Xcode probe runs its four commands in a fixed order and stops
    at the first that does not succeed: the commands issued are the first [n]
    of the four, all but the last of them succeeded, the probe reports the
    Xcode data only when all four succeeded, and otherwise reports an error
    for the command that ended it: the fixed message of that step when the
    command reported failure, the text of the thrown value when it was
    rejected. *)
Theorem xcode_probe_stops_at_first_failure (log log' : list Call)
    (result : Outcome XcodeInfo) :
  getXcodeInfo executor log = (result, log') ->
  exists n info,
    result = Returned info
    /\ (1 <= n <= 4)%nat
    /\ log' = log ++ firstn n xcodeProbeCalls
    /\ (forall k, (k < n - 1)%nat -> succeeded (xcodeAnswer executor log k) = true)
    /\ match info with
       | XcodeInfoOk _ _ _ _ =>
           n = 4%nat /\ succeeded (xcodeAnswer executor log 3) = true
       | XcodeInfoError e =>
           succeeded (xcodeAnswer executor log (n - 1)) = false
           /\ e = xcodeErrorOf (n - 1) (xcodeAnswer executor log (n - 1))
       end.
Proof.
  pose proof (getXcodeInfo_run log) as Hrun. cbv zeta in Hrun.
  rewrite Hrun. clear Hrun.
  destruct (succeeded (xcodeAnswer executor log 0)) eqn:H0; cbn [negb].
  2:{ intros [-> ->]%run_result. exists 1%nat. eexists.
      split; [reflexivity|]. split; [lia|]. split; [reflexivity|].
      split; [intros k Hk; lia|]. by split. }
  destruct (succeeded (xcodeAnswer executor log 1)) eqn:H1; cbn [negb].
  2:{ intros [-> ->]%run_result. exists 2%nat. eexists.
      split; [reflexivity|]. split; [lia|]. split; [reflexivity|].
      split; [intros [|k] Hk; [done|lia]|]. by split. }
  destruct (succeeded (xcodeAnswer executor log 2)) eqn:H2; cbn [negb].
  2:{ intros [-> ->]%run_result. exists 3%nat. eexists.
      split; [reflexivity|]. split; [lia|]. split; [reflexivity|].
      split; [intros [|[|k]] Hk; [done|done|lia]|]. by split. }
  destruct (succeeded (xcodeAnswer executor log 3)) eqn:H3; cbn [negb].
  2:{ intros [-> ->]%run_result. exists 4%nat. eexists.
      split; [reflexivity|]. split; [lia|]. split; [reflexivity|].
      split; [intros [|[|[|k]]] Hk; [done|done|done|lia]|]. by split. }
  intros [-> ->]%run_result. exists 4%nat. eexists.
  split; [reflexivity|]. split; [lia|]. split; [reflexivity|].
  split; [intros [|[|[|k]]] Hk; [done|done|done|lia]|]. by split.
Qed.

(** X18.  What the Xcode probe reports on success is cleaned text: the
    version holds no line feed, being the first two lines of the trimmed
    output of [xcodebuild -version] joined by [ - ] (the trimmed output itself
    when that is a single line), and the path, the selected Xcode and the
    xcrun version have no white space at their ends. *)
Theorem xcode_info_is_clean (log log' : list Call)
    (version path selectedXcode xcrunVersion : list N) :
  getXcodeInfo executor log
  = (Returned (XcodeInfoOk version path selectedXcode xcrunVersion), log') ->
  ~ In LF version
  /\ trimmed path /\ trimmed selectedXcode /\ trimmed xcrunVersion
  /\ (exists xcodebuild,
        xcodeAnswer executor log 0 = Returned xcodebuild
        /\ version
           = join (lit " - ") (firstn 2 (splitOn LF (trim (output xcodebuild))))
        /\ (~ In LF (trim (output xcodebuild)) -> version = trim (output xcodebuild))).
Proof.
  pose proof (getXcodeInfo_run log) as Hrun. cbv zeta in Hrun.
  rewrite Hrun. clear Hrun.
  destruct (succeeded (xcodeAnswer executor log 0)) eqn:H0; cbn [negb];
    [|by intros [[=] _]%run_result].
  destruct (succeeded (xcodeAnswer executor log 1)); cbn [negb];
    [|by intros [[=] _]%run_result].
  destruct (succeeded (xcodeAnswer executor log 2)); cbn [negb];
    [|by intros [[=] _]%run_result].
  destruct (succeeded (xcodeAnswer executor log 3)); cbn [negb];
    [|by intros [[=] _]%run_result].
  intros [Hinfo _]%run_result. apply Returned_inj in Hinfo.
  injection Hinfo as -> -> -> ->.
  split; [apply xcodeVersion_single_line|].
  split; [apply trim_trimmed|]. split; [apply trim_trimmed|].
  split; [apply trim_trimmed|].
  destruct (xcodeAnswer executor log 0) as [xcodebuild|e]; [|discriminate].
  exists xcodebuild. split; [done|]. split; [done|].
  intros Hline. unfold splitOn. by rewrite splitFrom_whole.
Qed.

End XcodeProbeFacts.

(** ** The manifest summary *)

Section ManifestFacts.

Variable imports : DoctorImports.

Implicit Types entries : list (list N * list (list N)).
Implicit Types counts : gmap (list N) nat.
Implicit Types tools : list (list N).
Implicit Types seen : gset (list N).

Local Abbreviation countWorkflow :=
  (fun counts (entry : list N * list (list N)) =>
     assignCount counts entry.1 (length entry.2)).

Lemma uniqueTools_fold tools seen :
  fold_left (fun acc toolId => {[toolId]} ∪ acc) tools seen
  = list_to_set tools ∪ seen.
Proof.
  revert seen. induction tools as [|tool tools IH]; intros seen; cbn [fold_left].
  - set_solver.
  - rewrite IH. set_solver.
Qed.

(** The loop of [getManifestToolInfo], with its two accumulators apart. *)
Lemma summarizeWorkflows_fold entries : forall counts seen,
  fold_left
    (fun '(toolsByWorkflow, uniqueTools) '(workflowId, tools) =>
       (assignCount toolsByWorkflow workflowId (length tools),
        fold_left (fun acc toolId => {[toolId]} ∪ acc) tools uniqueTools))
    entries (counts, seen)
  = (fold_left countWorkflow entries counts,
     list_to_set (concat (map snd entries)) ∪ seen).
Proof.
  induction entries as [|[workflowId tools] entries IH]; intros counts seen;
    cbn [fold_left map concat].
  - f_equal. set_solver.
  - rewrite IH, uniqueTools_fold. f_equal. set_solver.
Qed.

Lemma assignCount_proto counts count :
  assignCount counts (lit "__proto__") count = counts.
Proof. reflexivity. Qed.

Lemma assignCount_insert counts workflowId count :
  workflowId <> lit "__proto__" ->
  assignCount counts workflowId count = <[workflowId := count]> counts.
Proof.
  intros Hne. unfold assignCount.
  destruct (streqb workflowId (lit "__proto__")) eqn:Heq; [|done].
  by apply streqb_eq in Heq.
Qed.

Lemma assignCount_other counts workflowId count other :
  other <> workflowId ->
  assignCount counts workflowId count !! other = counts !! other.
Proof.
  intros Hne. unfold assignCount.
  destruct (streqb workflowId (lit "__proto__")); [done|].
  by apply lookup_insert_ne.
Qed.

Lemma countWorkflow_other entries : forall counts workflowId,
  ~ In workflowId (map fst entries) ->
  fold_left countWorkflow entries counts !! workflowId = counts !! workflowId.
Proof.
  induction entries as [|[i t] entries IH]; intros counts workflowId Hout;
    cbn [fold_left]; [done|].
  rewrite IH; [|intros Hin; apply Hout; by right].
  apply assignCount_other. intros ->. apply Hout. by left.
Qed.

Lemma countWorkflow_proto entries : forall counts,
  fold_left countWorkflow entries counts !! lit "__proto__"
  = counts !! lit "__proto__".
Proof.
  induction entries as [|[i t] entries IH]; intros counts; cbn [fold_left]; [done|].
  rewrite IH. cbn [fst snd].
  destruct (decide (i = lit "__proto__")) as [->|Hne].
  - by rewrite assignCount_proto.
  - by apply assignCount_other.
Qed.

Lemma countWorkflow_lookup entries : forall counts workflowId tools,
  List.NoDup (map fst entries) ->
  In (workflowId, tools) entries ->
  workflowId <> lit "__proto__" ->
  fold_left countWorkflow entries counts !! workflowId = Some (length tools).
Proof.
  induction entries as [|[i t] entries IH];
    intros counts workflowId tools Hnodup Hin Hown; [done|].
  cbn [map fst] in Hnodup. apply List.NoDup_cons_iff in Hnodup as [Hfresh Hnodup].
  cbn [fold_left]. destruct Hin as [[= -> ->]|Hin].
  - rewrite countWorkflow_other by done. cbn [fst snd].
    rewrite assignCount_insert by done. apply lookup_insert_eq.
  - by apply IH.
Qed.

Lemma countWorkflow_keys entries : forall counts workflowId,
  is_Some (fold_left countWorkflow entries counts !! workflowId)
  <-> (In workflowId (map fst entries) /\ workflowId <> lit "__proto__")
      \/ is_Some (counts !! workflowId).
Proof.
  induction entries as [|[i t] entries IH]; intros counts workflowId;
    cbn [fold_left map fst].
  - simpl. tauto.
  - rewrite IH. cbn [fst snd].
    destruct (decide (i = lit "__proto__")) as [->|Hown].
    + rewrite assignCount_proto. simpl. intuition congruence.
    + rewrite assignCount_insert by done.
      destruct (decide (workflowId = i)) as [->|Hne].
      * rewrite lookup_insert_eq. simpl. intuition eauto.
      * rewrite lookup_insert_ne by done. simpl. intuition congruence.
Qed.

Lemma size_list_to_set_distinct (l : list (list N)) :
  size (list_to_set l : gset (list N)) = length (remove_dups l).
Proof.
  rewrite <- (size_list_to_set (C:=gset (list N)) (remove_dups l))
    by apply NoDup_remove_dups.
  f_equal. apply set_eq. intros x.
  by rewrite !elem_of_list_to_set, elem_of_remove_dups.
Qed.

Lemma remove_dups_length (l : list (list N)) :
  (length (remove_dups l) <= length l)%nat.
Proof.
  induction l as [|x l IH]; simpl; [done|].
  destruct (decide_rel elem_of x l); simpl; lia.
Qed.

(** X19.  The manifest summary counts what the manifest holds: the workflow
    count is the number of workflow entries, the tool total is the number of
    distinct tool ids over all workflows (a tool shared by several workflows
    counts once, so the total never exceeds the sum of the per-workflow
    counts), and the keys of [toolsByWorkflow] are the workflow ids other
    than [__proto__]: the object never holds a count under [__proto__],
    though such a workflow is counted and its tools are.  Workflow ids being
    distinct as they are in a [Map], each workflow not named [__proto__] is
    listed with the length of its tool list. *)
Theorem manifest_summary_counts (log log' : list Call) (summary : ManifestToolSummary) :
  getManifestToolInfo imports log = (Returned (ManifestInfoOk summary), log') ->
  exists manifest,
    loadManifest imports log = Returned manifest
    /\ workflowCount summary = length (workflows manifest)
    /\ totalTools summary
       = length (remove_dups (concat (map snd (workflows manifest))))
    /\ (totalTools summary <= length (concat (map snd (workflows manifest))))%nat
    /\ (forall workflowId,
          is_Some (toolsByWorkflow summary !! workflowId)
          <-> In workflowId (map fst (workflows manifest))
              /\ workflowId <> lit "__proto__")
    /\ toolsByWorkflow summary !! lit "__proto__" = None
    /\ (List.NoDup (map fst (workflows manifest)) ->
        forall workflowId tools,
          In (workflowId, tools) (workflows manifest) ->
          workflowId <> lit "__proto__" ->
          toolsByWorkflow summary !! workflowId = Some (length tools)).
Proof.
  unfold getManifestToolInfo, tryCatch, bind, callLoadManifest.
  destruct (loadManifest imports log) as [manifest|e]; [|by intros [[=] _]%run_result].
  unfold summarizeWorkflows. rewrite summarizeWorkflows_fold.
  intros [Hsummary _]%run_result. apply Returned_inj in Hsummary.
  injection Hsummary as ->. cbn [workflowCount totalTools toolsByWorkflow].
  exists manifest. split; [done|]. split; [done|].
  assert (Htotal : size (list_to_set (concat (map snd (workflows manifest))) ∪ ∅
                         : gset (list N))
                   = length (remove_dups (concat (map snd (workflows manifest))))).
  { rewrite <- size_list_to_set_distinct. f_equal. set_solver. }
  split; [exact Htotal|]. split; [rewrite Htotal; apply remove_dups_length|].
  split; [|split].
  - intros workflowId. rewrite countWorkflow_keys, lookup_empty.
    split; [intros [Hin|[x [=]]]; exact Hin|by left].
  - by rewrite countWorkflow_proto.
  - intros Hnodup workflowId tools Hin Hown. by apply countWorkflow_lookup.
Qed.

End ManifestFacts.

(** ** The further properties at examples *)

Lemma available_iff_version_witness :
  (true = true <-> is_Some (Some (lit "2024.1.0")))
  /\ (true = false <-> Some (lit "2024.1.0") = None).
Proof.
  apply (available_iff_version bareImports toolExecutor (lit "mise") []
           [whichCall (lit "mise"); miseVersionCall]
           {| available := true; version := Some (lit "2024.1.0") |}).
  vm_compute. reflexivity.
Defined.

Lemma which_decides_availability_witness :
  exists r rest,
    Returned {| available := true; version := Some versionUnknown |} = Returned r
    /\ [whichCall (lit "git")] = [] ++ whichCall (lit "git") :: rest
    /\ available r = succeeded (answerTo toolExecutor [] (whichCall (lit "git")))
    /\ (available r = false \/ lit "git" <> lit "mise" -> rest = [])
    /\ (available r = true -> lit "git" <> lit "mise" ->
        version r = Some versionUnknown).
Proof.
  apply (which_decides_availability bareImports toolExecutor (lit "git") []).
  - discriminate.
  - discriminate.
  - vm_compute. reflexivity.
Defined.

Lemma mise_version_is_best_effort_witness :
  checkBinaryAvailability bareImports toolExecutor (lit "mise") []
  = (Returned {| available := true; version := Some (lit "2024.1.0") |},
     [whichCall (lit "mise"); miseVersionCall]).
Proof.
  destruct (mise_version_is_best_effort bareImports toolExecutor []) as (Hrun & _ & _).
  - reflexivity.
  - rewrite Hrun. vm_compute. reflexivity.
Defined.

Lemma axe_is_judged_by_resolution_witness :
  (exists v,
      fst (checkBinaryAvailability axeImports rejectingExecutor (lit "axe") [])
      = Returned {| available := true; version := Some v |})
  /\ executorCommands
       (snd (checkBinaryAvailability axeImports rejectingExecutor (lit "axe") []))
     = [[lit "/opt/axe/bin/axe"; lit "--version"]].
Proof.
  apply (axe_is_judged_by_resolution axeImports rejectingExecutor []
           (snd (checkBinaryAvailability axeImports rejectingExecutor (lit "axe") []))
           (fst (checkBinaryAvailability axeImports rejectingExecutor (lit "axe") []))).
  apply surjective_pairing.
Defined.

Lemma xcode_probe_stops_at_first_failure_witness :
  getXcodeInfo noSelectExecutor []
  = (Returned (XcodeInfoError (lit "xcode-select command failed")),
     firstn 2 xcodeProbeCalls).
Proof.
  destruct (getXcodeInfo noSelectExecutor []) as [result log'] eqn:Hrun.
  destruct (xcode_probe_stops_at_first_failure noSelectExecutor [] log' result Hrun)
    as (n & info & Hresult & Hn & Hlog & _ & _).
  vm_compute in Hrun. injection Hrun as <- <-. reflexivity.
Defined.

Lemma xcode_info_is_clean_witness :
  ~ In LF (lit "Xcode 15.0 - Build version 15A240d")
  /\ trimmed (lit "/Applications/Xcode.app/Contents/Developer").
Proof.
  destruct (xcode_info_is_clean xcodeExecutor []
              (firstn 4 xcodeProbeCalls)
              (lit "Xcode 15.0 - Build version 15A240d")
              (lit "/Applications/Xcode.app/Contents/Developer")
              (lit "/Applications/Xcode.app/Contents/Developer/usr/bin/xcodebuild")
              (lit "xcrun version 70.")) as (Hversion & Hpath & _).
  - vm_compute. reflexivity.
  - by split.
Defined.

Lemma manifest_summary_counts_witness :
  match fst (getManifestToolInfo protoImports []) with
  | Returned (ManifestInfoOk summary) =>
      workflowCount summary = 3%nat
      /\ totalTools summary = 4%nat
      /\ toolsByWorkflow summary !! lit "device" = Some 2%nat
      /\ toolsByWorkflow summary !! lit "__proto__" = None
  | _ => False
  end.
Proof.
  destruct (getManifestToolInfo protoImports []) as [[[summary|e]|e] log'] eqn:Hrun;
    cbn [fst]; try (vm_compute in Hrun; discriminate).
  destruct (manifest_summary_counts protoImports [] log' summary Hrun)
    as (manifest & Hload & Hcount & Htotal & _ & _ & Hproto & Hlisted).
  injection Hload as <-.
  split; [exact Hcount|]. split; [rewrite Htotal; vm_compute; reflexivity|].
  split; [|exact Hproto].
  apply (Hlisted ltac:(vm_compute; repeat constructor; cbn; intuition discriminate)
           (lit "device") [lit "build_device"; lit "build_sim"]).
  - right. right. left. reflexivity.
  - discriminate.
Defined.
